(** * Import-resolution checker (check_imports.py): model and properties

    A shallow embedding of [src/check_imports.py].  The script walks a source
    tree, reads every [.ts]/[.tsx] file, extracts the module specifiers that
    follow a [from] token and tests, for the alias ([@/x]) and the relative
    ([./x]) forms, whether a file exists for them.

    Modelling choices.
    - A Python [str] is a Rocq [string]; characters are the code points
      0..255.
    - The file system is a finite tree ([node]); a path is resolved against it
      component by component, as [os.stat] does.  There are no symbolic links
      and no permissions in the model.
    - The text a file yields to [f.read()] is stored in the file's node:
      [Some s] when its bytes decode as UTF-8 to [s], [None] when decoding
      raises [UnicodeDecodeError].
    - The script's effects (standard output, the calls it makes to the
      operating system) are threaded through a state-and-exception monad
      over a [world]. *)

From Stdlib Require Import String Ascii List Bool Arith Lia.
Import ListNotations.
Local Open Scope string_scope.
Local Open Scope list_scope.

(* ===================================================================== *)
(** ** Python string operations used by the script *)
(* ===================================================================== *)

Module Py.

(** [s.startswith(p)] *)
Fixpoint startswith (s p : string) {struct p} : bool :=
  match p, s with
  | EmptyString, _ => true
  | String _ _, EmptyString => false
  | String c p', String d s' => Ascii.eqb c d && startswith s' p'
  end.

(** [s[n:]] *)
Fixpoint drop (n : nat) (s : string) : string :=
  match n, s with
  | O, _ => s
  | S _, EmptyString => EmptyString
  | S n', String _ s' => drop n' s'
  end.

(** [s.endswith(p)] *)
Definition endswith (s p : string) : bool :=
  Nat.leb (String.length p) (String.length s) &&
  String.eqb (drop (String.length s - String.length p) s) p.

Definition sep : ascii := "/"%char.

Definition is_sep (c : ascii) : bool := Ascii.eqb c sep.

(** [posixpath.join(a, b)]: an absolute [b] replaces [a]; otherwise the two
    are concatenated, with a separator unless [a] is empty or already ends
    with one. *)
Definition join (a b : string) : string :=
  if startswith b "/" then b
  else if String.eqb a "" || endswith a "/" then a ++ b
  else a ++ "/" ++ b.

(** [p[:p.rfind('/') + 1]] *)
Fixpoint head_to_last_sep (p : string) : string :=
  match p with
  | EmptyString => EmptyString
  | String c p' =>
      let h := head_to_last_sep p' in
      if is_sep c then String c h
      else match h with
           | EmptyString => EmptyString
           | _ => String c h
           end
  end.

(** [head == sep * len(head)] *)
Fixpoint all_sep (s : string) : bool :=
  match s with
  | EmptyString => true
  | String c s' => is_sep c && all_sep s'
  end.

(** [head.rstrip('/')] *)
Fixpoint rstrip_sep (s : string) : string :=
  match s with
  | EmptyString => EmptyString
  | String c s' =>
      match rstrip_sep s' with
      | EmptyString => if is_sep c then EmptyString else String c EmptyString
      | r => String c r
      end
  end.

(** [posixpath.dirname(p)] *)
Definition dirname (p : string) : string :=
  let head := head_to_last_sep p in
  if negb (String.eqb head "") && negb (all_sep head)
  then rstrip_sep head
  else head.

(** [s.split('/')] *)
Fixpoint split_sep (s : string) : list string :=
  match s with
  | EmptyString => [EmptyString]
  | String c s' =>
      if is_sep c then EmptyString :: split_sep s'
      else match split_sep s' with
           | h :: t => String c h :: t
           | [] => [String c EmptyString]
           end
  end.

End Py.

(* ===================================================================== *)
(** ** The file system *)
(* ===================================================================== *)

(** A file holds the outcome of decoding its bytes as UTF-8; a directory
    holds its entries in the order [scandir] lists them. *)
#[warnings="-register-all"] Inductive node : Type :=
| File (text : option string)
| Dir (entries : list (string * node)).

(** [fs_cwd] is the working directory, as the names leading to it from the
    root. *)
Record filesystem : Type := mkFs {
  fs_root : node;
  fs_cwd : list string
}.

Definition is_dir_node (n : node) : bool :=
  match n with
  | Dir _ => true
  | File _ => false
  end.

Fixpoint lookup (name : string) (es : list (string * node)) : option node :=
  match es with
  | [] => None
  | (k, n) :: es' => if String.eqb k name then Some n else lookup name es'
  end.

(** A position during path resolution: the node reached, on top of the
    directories passed on the way, each with the name that led to it (the
    root has the empty name). *)
Definition position : Type := list (string * node).

(** One path component, as the kernel resolves it: every component is
    looked up in a directory; the empty component and [.] stay, [..] goes
    up (and stays at the root). *)
Definition step (pos : position) (c : string) : option position :=
  match pos with
  | (_, Dir es) :: up =>
      if String.eqb c "" || String.eqb c "." then Some pos
      else if String.eqb c ".." then
        Some (match up with [] => pos | _ :: _ => up end)
      else match lookup c es with
           | Some n => Some ((c, n) :: pos)
           | None => None
           end
  | _ => None
  end.

Fixpoint steps (pos : position) (cs : list string) : option position :=
  match cs with
  | [] => Some pos
  | c :: cs' =>
      match step pos c with
      | Some pos' => steps pos' cs'
      | None => None
      end
  end.

Definition root_position (fs : filesystem) : position := [("", fs_root fs)].

(** Where resolution of [p] starts: at the root for an absolute path, at the
    working directory otherwise. *)
Definition start_position (fs : filesystem) (p : string) : option position :=
  if Py.startswith p "/" then Some (root_position fs)
  else steps (root_position fs) (fs_cwd fs).

Definition resolve (fs : filesystem) (p : string) : option position :=
  if String.eqb p "" then None
  else match start_position fs p with
       | Some pos => steps pos (Py.split_sep p)
       | None => None
       end.

(** [os.stat(p)], reduced to the node found; [None] stands for [OSError]. *)
Definition stat (fs : filesystem) (p : string) : option node :=
  match resolve fs p with
  | Some ((_, n) :: _) => Some n
  | _ => None
  end.

(** [os.path.exists(p)]: [os.stat] succeeds. *)
Definition exists_ (fs : filesystem) (p : string) : bool :=
  match stat fs p with
  | Some _ => true
  | None => false
  end.

(** [os.path.isdir(p)]: [os.stat] succeeds and reports a directory. *)
Definition isdir (fs : filesystem) (p : string) : bool :=
  match stat fs p with
  | Some n => is_dir_node n
  | None => false
  end.

Definition dirnames (es : list (string * node)) : list string :=
  map fst (filter (fun e => is_dir_node (snd e)) es).

Definition filenames (es : list (string * node)) : list string :=
  map fst (filter (fun e => negb (is_dir_node (snd e))) es).

Definition walk_entry : Type := string * list string * list string.

(** [os.walk(top)], top down: the directory itself, then each of its
    sub-directories in turn, named [join(top, dirname)]. *)
Fixpoint walk_node (top : string) (n : node) : list walk_entry :=
  match n with
  | File _ => []
  | Dir es =>
      (top, dirnames es, filenames es) ::
      (fix sub (l : list (string * node)) : list walk_entry :=
         match l with
         | [] => []
         | (name, c) :: l' => walk_node (Py.join top name) c ++ sub l'
         end) es
  end.

(** [os.walk] ignores the error of a [top] that cannot be listed. *)
Definition walk (fs : filesystem) (top : string) : list walk_entry :=
  match stat fs top with
  | Some n => walk_node top n
  | None => []
  end.

(** Names a directory entry can have. *)
Fixpoint has_sep (s : string) : bool :=
  match s with
  | EmptyString => false
  | String c s' => Py.is_sep c || has_sep s'
  end.

Fixpoint has_nul (s : string) : bool :=
  match s with
  | EmptyString => false
  | String c s' => Ascii.eqb c zero || has_nul s'
  end.

Definition valid_name (s : string) : bool :=
  negb (String.eqb s "") && negb (String.eqb s ".") &&
  negb (String.eqb s "..") && negb (has_sep s) && negb (has_nul s).

Fixpoint mem_name (s : string) (l : list string) : bool :=
  match l with
  | [] => false
  | x :: l' => String.eqb x s || mem_name s l'
  end.

Fixpoint nodup_names (l : list string) : bool :=
  match l with
  | [] => true
  | x :: l' => negb (mem_name x l') && nodup_names l'
  end.

(** A well-formed tree: in every directory the names are valid and
    distinct. *)
Fixpoint wf_node (n : node) : bool :=
  match n with
  | File _ => true
  | Dir es =>
      nodup_names (map fst es) &&
      (fix all (l : list (string * node)) : bool :=
         match l with
         | [] => true
         | (name, c) :: l' => valid_name name && wf_node c && all l'
         end) es
  end.

Definition wf_fs (fs : filesystem) : bool :=
  is_dir_node (fs_root fs) && wf_node (fs_root fs).

(* ===================================================================== *)
(** ** Regular expressions *)
(* ===================================================================== *)

Module Re.

Definition dquote : ascii := "034"%char.
Definition squote : ascii := "'"%char.
Definition newline : ascii := "010"%char.

Inductive atom : Type :=
| Chr (c : ascii)
| Space
| Dot
| OneOf (cs : list ascii).

(** [\s] on a [str] pattern: the characters [str.isspace] accepts. *)
Definition is_space (c : ascii) : bool :=
  let n := nat_of_ascii c in
  (((9 <=? n) && (n <=? 13)) || ((28 <=? n) && (n <=? 32)) ||
  (n =? 133) || (n =? 160))%nat.

Definition atom_matches (a : atom) (c : ascii) : bool :=
  match a with
  | Chr x => Ascii.eqb x c
  | Space => is_space c
  | Dot => negb (Ascii.eqb c newline)
  | OneOf cs => existsb (Ascii.eqb c) cs
  end.

(** A pattern is a sequence of single-character atoms, of greedy
    repetitions [a+] and of the parentheses of its one group. *)
Inductive item : Type :=
| One (a : atom)
| Plus (a : atom)
| GroupOpen
| GroupClose.

Definition push (cap : bool) (g : string) (c : ascii) : string :=
  if cap then g ++ String c EmptyString else g.

(** The rest of a greedy repetition [a+], after its first character: take
    one more character and go on; when the remainder of the pattern, [cont],
    then fails (or no further character fits), stop here instead. *)
Fixpoint more (a : atom)
    (cont : bool -> string -> string -> option (string * string))
    (cap : bool) (g : string) (s : string) : option (string * string) :=
  match s with
  | String c s' =>
      if atom_matches a c then
        match more a cont cap (push cap g c) s' with
        | Some r => Some r
        | None => cont cap g s
        end
      else cont cap g s
  | EmptyString => cont cap g s
  end.

(** Backtracking match of [its] at the start of [s]: the text of the group
    and the rest of [s] after the match.  [cap] tells whether the group is
    open and [g] is its text so far. *)
Fixpoint rmatch (its : list item) : bool -> string -> string -> option (string * string) :=
  match its with
  | [] => fun _ g s => Some (g, s)
  | One a :: k =>
      fun cap g s =>
        match s with
        | String c s' =>
            if atom_matches a c then rmatch k cap (push cap g c) s' else None
        | EmptyString => None
        end
  | Plus a :: k =>
      fun cap g s =>
        match s with
        | String c s' =>
            if atom_matches a c then more a (rmatch k) cap (push cap g c) s'
            else None
        | EmptyString => None
        end
  | GroupOpen :: k => fun _ _ s => rmatch k true EmptyString s
  | GroupClose :: k => fun _ g s => rmatch k false g s
  end.

(** [re.findall] for a pattern with one group: scan from the left; where the
    pattern matches, keep the group and go on after the match ([skip]
    counts the characters of the match still to pass); elsewhere move one
    character on. *)
Fixpoint findall_from (its : list item) (skip : nat) (s : string) : list string :=
  match skip with
  | S k =>
      match s with
      | EmptyString => []
      | String _ s' => findall_from its k s'
      end
  | O =>
      match rmatch its false EmptyString s with
      | Some (g, rest) =>
          g :: match s with
               | EmptyString => []
               | String _ s' =>
                   findall_from its (String.length s - String.length rest - 1) s'
               end
      | None =>
          match s with
          | EmptyString => []
          | String _ s' => findall_from its 0 s'
          end
      end
  end.

Definition findall (its : list item) (s : string) : list string :=
  findall_from its 0 s.

End Re.

(** [r'from\s+[\'"](.+)[\'"]'] *)
Definition import_re : list Re.item :=
  [ Re.One (Re.Chr "f"); Re.One (Re.Chr "r"); Re.One (Re.Chr "o");
    Re.One (Re.Chr "m");
    Re.Plus Re.Space;
    Re.One (Re.OneOf [Re.squote; Re.dquote]);
    Re.GroupOpen; Re.Plus Re.Dot; Re.GroupClose;
    Re.One (Re.OneOf [Re.squote; Re.dquote]) ].

(** [re.findall(r'from\s+[\'"](.+)[\'"]', content)] *)
Definition extract_imports (content : string) : list string :=
  Re.findall import_re content.

(* ===================================================================== *)
(** ** Effects *)
(* ===================================================================== *)

Inductive open_mode : Type := ModeR | ModeW.

(** The calls a script makes to the operating system. *)
Inductive call : Type :=
| CWalk (top : string)
| COpen (path : string) (mode : open_mode)
| CExists (path : string)
| CIsDir (path : string).

Definition read_only (c : call) : bool :=
  match c with
  | COpen _ ModeW => false
  | _ => true
  end.

Inductive exn : Type :=
| UnicodeDecodeError
| OSError.

Inductive outcome (A : Type) : Type :=
| Ok (a : A)
| Raise (e : exn).

Arguments Ok {A} a.
Arguments Raise {A} e.

(** [w_stdout] holds the arguments of the calls to [print], oldest first;
    [w_calls] the operating-system calls made, oldest first. *)
Record world : Type := mkWorld {
  w_fs : filesystem;
  w_stdout : list string;
  w_calls : list call
}.

Definition M (A : Type) : Type := world -> outcome A * world.

Definition ret {A : Type} (a : A) : M A := fun w => (Ok a, w).

Definition bind {A B : Type} (m : M A) (f : A -> M B) : M B :=
  fun w =>
    match m w with
    | (Ok a, w') => f a w'
    | (Raise e, w') => (Raise e, w')
    end.

Definition raise {A : Type} (e : exn) : M A := fun w => (Raise e, w).

(** [try: body  except <caught>: handler] *)
Definition try_except {A : Type} (body : M A) (caught : exn -> bool)
    (handler : M A) : M A :=
  fun w =>
    match body w with
    | (Ok a, w') => (Ok a, w')
    | (Raise e, w') => if caught e then handler w' else (Raise e, w')
    end.

Declare Scope prog_scope.
Delimit Scope prog_scope with prog.
Notation "x <- m ;; k" := (bind m (fun x => k))
  (at level 100, m at next level, right associativity) : prog_scope.
Notation "m ;; k" := (bind m (fun _ => k))
  (at level 100, right associativity) : prog_scope.
Local Open Scope prog_scope.

Definition log (c : call) (w : world) : world :=
  mkWorld (w_fs w) (w_stdout w) (w_calls w ++ [c]).

(** [print(line)] *)
Definition print (line : string) : M unit :=
  fun w => (Ok tt, mkWorld (w_fs w) (w_stdout w ++ [line]) (w_calls w)).

(** [os.path.exists(p)] *)
Definition path_exists (p : string) : M bool :=
  fun w => (Ok (exists_ (w_fs w) p), log (CExists p) w).

(** [os.path.isdir(p)] *)
Definition path_isdir (p : string) : M bool :=
  fun w => (Ok (isdir (w_fs w) p), log (CIsDir p) w).

(** [os.walk(top)].  The generator is run to its end at once: the script
    changes nothing in the tree while it consumes it. *)
Definition os_walk (top : string) : M (list walk_entry) :=
  fun w => (Ok (walk (w_fs w) top), log (CWalk top) w).

Fixpoint set_entry (name : string) (n : node) (es : list (string * node))
    : list (string * node) :=
  match es with
  | [] => [(name, n)]
  | (k, x) :: es' =>
      if String.eqb k name then (k, n) :: es' else (k, x) :: set_entry name n es'
  end.

(** The root after the node reached by [name] from position [up] became
    [new]. *)
Fixpoint rebuild (new : node) (name : string) (up : position) : node :=
  match up with
  | [] => new
  | (pname, Dir es) :: up' => rebuild (Dir (set_entry name new es)) pname up'
  | (_, File _) :: _ => new
  end.

(** The tree after [open(p, 'w')]: the file is created or emptied.  [None]
    when the call fails. *)
Definition truncated (fs : filesystem) (p : string) : option filesystem :=
  if String.eqb p "" then None
  else
    let cs := Py.split_sep p in
    let name := last cs "" in
    match start_position fs p with
    | None => None
    | Some pos =>
        match steps pos (removelast cs) with
        | Some ((dname, Dir es) :: up) =>
            if negb (valid_name name) then None
            else match lookup name es with
                 | Some (Dir _) => None
                 | _ =>
                     Some (mkFs (rebuild (File (Some "")) name ((dname, Dir es) :: up))
                                (fs_cwd fs))
                 end
        | _ => None
        end
    end.

Record handle : Type := mkHandle {
  h_mode : open_mode;
  h_text : option string
}.

(** [open(p, mode, encoding='utf-8')] *)
Definition open_ (p : string) (mode : open_mode) : M handle :=
  fun w =>
    match mode with
    | ModeR =>
        match stat (w_fs w) p with
        | Some (File t) => (Ok (mkHandle ModeR t), log (COpen p ModeR) w)
        | _ => (Raise OSError, log (COpen p ModeR) w)
        end
    | ModeW =>
        match truncated (w_fs w) p with
        | Some fs' =>
            (Ok (mkHandle ModeW (Some "")),
             mkWorld fs' (w_stdout w) (w_calls w ++ [COpen p ModeW]))
        | None => (Raise OSError, log (COpen p ModeW) w)
        end
    end.

(** [f.read()] *)
Definition read (f : handle) : M string :=
  match h_mode f, h_text f with
  | ModeR, Some s => ret s
  | ModeR, None => raise UnicodeDecodeError
  | ModeW, _ => raise OSError
  end.

(** [for x in l: acc = body(x, acc)] *)
Fixpoint for_each {A : Type} (l : list A) (body : A -> nat -> M nat)
    (acc : nat) : M nat :=
  match l with
  | [] => ret acc
  | x :: l' => acc' <- body x acc ;; for_each l' body acc'
  end.

(* ===================================================================== *)
(** ** The script *)
(* ===================================================================== *)

Definition suffixes : list string :=
  [".ts"; ".tsx"; ".js"; ".jsx"; "/index.ts"; "/index.tsx"; ""].

(** [found = False
     for ext in exts:
         if os.path.exists(abs_path + ext):
             found = True
             break] *)
Fixpoint probe (abs_path : string) (exts : list string) : M bool :=
  match exts with
  | [] => ret false
  | ext :: exts' =>
      b <- path_exists (abs_path ++ ext) ;;
      if b then ret true else probe abs_path exts'
  end.

(** [if os.path.isdir(abs_path):
         if os.path.exists(os.path.join(abs_path, 'index.ts'))
            or os.path.exists(os.path.join(abs_path, 'index.tsx')):
             found = True], entered with [found] false. *)
Definition index_fallback (abs_path : string) : M bool :=
  d <- path_isdir abs_path ;;
  if d then
    a <- path_exists (Py.join abs_path "index.ts") ;;
    if a then ret true
    else
      b <- path_exists (Py.join abs_path "index.tsx") ;;
      if b then ret true else ret false
  else ret false.

Definition missing_line (filepath imp : string) : string :=
  "Missing import in " ++ filepath ++ ": " ++ imp.

(** [if not found:
         print(f"Missing import in {filepath}: {imp}")
         error_count += 1] *)
Definition report (found : bool) (filepath imp : string) (error_count : nat)
    : M nat :=
  if negb found then
    print (missing_line filepath imp) ;;
    ret (error_count + 1)
  else ret error_count.

(** The body of [for imp in imports]. *)
Definition check_import (root_dir filepath imp : string) (error_count : nat)
    : M nat :=
  if Py.startswith imp "@/" then
    let rel_path := Py.drop 2 imp in
    let abs_path := Py.join root_dir rel_path in
    found <- probe abs_path suffixes ;;
    found <- (if negb found then index_fallback abs_path else ret found) ;;
    report found filepath imp error_count
  else if Py.startswith imp "." then
    let dir_path := Py.dirname filepath in
    let abs_path := Py.join dir_path imp in
    found <- probe abs_path suffixes ;;
    report found filepath imp error_count
  else ret error_count.

Definition is_decode_error (e : exn) : bool :=
  match e with
  | UnicodeDecodeError => true
  | OSError => false
  end.

(** The body of [for file in files]. *)
Definition check_file (root_dir subdir file : string) (error_count : nat)
    : M nat :=
  if Py.endswith file ".tsx" || Py.endswith file ".ts" then
    let filepath := Py.join subdir file in
    f <- open_ filepath ModeR ;;
    content <- try_except (s <- read f ;; ret (Some s)) is_decode_error (ret None) ;;
    match content with
    | None => ret error_count
    | Some content =>
        let imports := extract_imports content in
        for_each imports (check_import root_dir filepath) error_count
    end
  else ret error_count.

(** The body of [for subdir, dirs, files in os.walk(root_dir)]. *)
Definition check_dir (root_dir : string) (e : walk_entry) (error_count : nat)
    : M nat :=
  let '(subdir, _, files) := e in
  for_each files (check_file root_dir subdir) error_count.

Definition success_line : string := "No missing imports found.".

(** Lines 7 to 55: the walk, which leaves [error_count]. *)
Definition scan (root_dir : string) : M nat :=
  entries <- os_walk root_dir ;;
  for_each entries (check_dir root_dir) 0.

Definition check_imports (root_dir : string) : M unit :=
  error_count <- scan root_dir ;;
  if Nat.eqb error_count 0 then print success_line else ret tt.


(** A run from a tree, with nothing printed and no call made yet. *)
Definition initial (fs : filesystem) : world := mkWorld fs [] [].

Definition run (fs : filesystem) (root_dir : string) : outcome unit * world :=
  check_imports root_dir (initial fs).

(* ===================================================================== *)
(** ** What the specification says, as functions of the tree *)
(* ===================================================================== *)

(** The seven candidates of a base path, in the order of the list. *)
Definition candidates (base : string) : list string :=
  map (fun ext => (base ++ ext)%string) suffixes.

(** The elements of [l] up to and including the first that satisfies [P]
    (all of [l] when none does). *)
Fixpoint through_first (P : string -> bool) (l : list string) : list string :=
  match l with
  | [] => []
  | x :: l' => x :: (if P x then [] else through_first P l')
  end.

Definition any_exists (fs : filesystem) (l : list string) : bool :=
  existsb (exists_ fs) l.

(** The directory-index fallback: the base path is a directory that holds
    [index.ts] or [index.tsx]. *)
Definition fallback (fs : filesystem) (base : string) : bool :=
  isdir fs base &&
  (exists_ fs (Py.join base "index.ts") || exists_ fs (Py.join base "index.tsx")).

(** A base path resolves when a candidate exists or the fallback holds. *)
Definition resolved (fs : filesystem) (base : string) : bool :=
  any_exists fs (candidates base) || fallback fs base.

Inductive form : Type := Alias | Relative | Bare.

Definition form_of (imp : string) : form :=
  if Py.startswith imp "@/" then Alias
  else if Py.startswith imp "." then Relative
  else Bare.

(** The base path of a specifier of the alias or the relative form. *)
Definition base_path (root_dir filepath imp : string) : string :=
  match form_of imp with
  | Alias => Py.join root_dir (Py.drop 2 imp)
  | _ => Py.join (Py.dirname filepath) imp
  end.

Definition is_missing (fs : filesystem) (root_dir filepath imp : string) : bool :=
  match form_of imp with
  | Bare => false
  | _ => negb (resolved fs (base_path root_dir filepath imp))
  end.

Definition is_source (file : string) : bool :=
  Py.endswith file ".tsx" || Py.endswith file ".ts".

(** The source files, in the order of the walk. *)
Definition source_files (fs : filesystem) (root_dir : string) : list string :=
  flat_map (fun e : walk_entry =>
              let '(subdir, _, files) := e in
              map (Py.join subdir) (filter is_source files))
           (walk fs root_dir).

(** The specifiers of a file, in the order of the text; none when the file
    does not decode. *)
Definition file_imports (fs : filesystem) (filepath : string) : list string :=
  match stat fs filepath with
  | Some (File (Some content)) => extract_imports content
  | _ => []
  end.

(** The missing references of a run, in the order of discovery. *)
Definition missing_refs (fs : filesystem) (root_dir : string)
    : list (string * string) :=
  flat_map (fun filepath =>
              map (pair filepath)
                  (filter (is_missing fs root_dir filepath)
                          (file_imports fs filepath)))
           (source_files fs root_dir).

Definition missing_lines (refs : list (string * string)) : list string :=
  map (fun r => missing_line (fst r) (snd r)) refs.

(** The output of a run, as section 6 of the specification gives it. *)
Definition expected_output (fs : filesystem) (root_dir : string) : list string :=
  let refs := missing_refs fs root_dir in
  missing_lines refs ++
  (if Nat.eqb (List.length refs) 0 then [success_line] else []).

Definition is_exists_call (c : call) : bool :=
  match c with
  | CExists _ => true
  | _ => false
  end.

(** A program that leaves the tree as it is and makes only read-only
    calls. *)
Definition reads_only {A : Type} (m : M A) : Prop :=
  forall w,
    w_fs (snd (m w)) = w_fs w /\
    exists d, w_calls (snd (m w)) = w_calls w ++ d /\ forallb read_only d = true.

(** Sample trees. *)
Definition sample_fs : filesystem :=
  mkFs (Dir [("app", Dir [("src", Dir [
     ("a.ts", File (Some "import b from './b'
import c from './missing'
import u from '@/lib/util'
import w from '../shared/widget'
import r from 'react'
import d from './lib'
"));
     ("b.ts", File (Some ""));
     ("bad.ts", File None);
     ("lib", Dir [("util.ts", File (Some "import z from '@/nope'"))]);
     ("notes.txt", File (Some "from 'zzz'"))]);
     ("shared", Dir [("widget", Dir [("index.tsx", File (Some ""))])])])]) [].

(** ** Auxiliary notions for the proofs *)

(** Every node of a position is well formed. *)
Definition wf_position (pos : position) : Prop :=
  Forall (fun e => wf_node (snd e) = true) pos.

(** The world after more lines were printed and more calls made. *)
Definition extends (w : world) (lines : list string) (d : list call) : world :=
  mkWorld (w_fs w) (w_stdout w ++ lines) (w_calls w ++ d).

(** [m], started in [w], returns [r] after printing [lines] and making the
    calls [d]. *)
Definition runs_to {A : Type} (m : M A) (w : world) (r : A)
    (lines : list string) (d : list call) : Prop :=
  m w = (Ok r, extends w lines d).

(** The calls the script makes for one specifier. *)
Definition import_calls (fs : filesystem) (root_dir filepath imp : string)
    : list call :=
  let base := base_path root_dir filepath imp in
  match form_of imp with
  | Alias =>
      map CExists (through_first (exists_ fs) (candidates base)) ++
      (if any_exists fs (candidates base) then [] else [CIsDir base])
  | Relative => map CExists (through_first (exists_ fs) (candidates base))
  | Bare => []
  end.

(** The missing references of one specifier, of one file, of one directory. *)
Definition import_refs (fs : filesystem) (root_dir filepath imp : string)
    : list (string * string) :=
  if is_missing fs root_dir filepath imp then [(filepath, imp)] else [].

Definition path_refs (fs : filesystem) (root_dir filepath : string)
    : list (string * string) :=
  flat_map (import_refs fs root_dir filepath) (file_imports fs filepath).

Definition path_calls (fs : filesystem) (root_dir filepath : string)
    : list call :=
  COpen filepath ModeR ::
  flat_map (import_calls fs root_dir filepath) (file_imports fs filepath).

Definition file_refs (fs : filesystem) (root_dir subdir file : string)
    : list (string * string) :=
  if is_source file then path_refs fs root_dir (Py.join subdir file) else [].

Definition file_calls (fs : filesystem) (root_dir subdir file : string)
    : list call :=
  if is_source file then path_calls fs root_dir (Py.join subdir file) else [].

Definition dir_refs (fs : filesystem) (root_dir : string) (e : walk_entry)
    : list (string * string) :=
  flat_map (file_refs fs root_dir (fst (fst e))) (snd e).

Definition dir_calls (fs : filesystem) (root_dir : string) (e : walk_entry)
    : list call :=
  flat_map (file_calls fs root_dir (fst (fst e))) (snd e).

(** The calls of a whole run. *)
Definition run_calls (fs : filesystem) (root_dir : string) : list call :=
  CWalk root_dir :: flat_map (dir_calls fs root_dir) (walk fs root_dir).

(* ===================================================================== *)
(** ** Notions for further properties *)
(* ===================================================================== *)

(** One of the two quote characters of the pattern. *)
Definition is_quote (c : ascii) : bool :=
  existsb (Ascii.eqb c) [Re.squote; Re.dquote].

Fixpoint has_newline (s : string) : bool :=
  match s with
  | EmptyString => false
  | String c s' => Ascii.eqb c Re.newline || has_newline s'
  end.

Fixpoint all_space (s : string) : bool :=
  match s with
  | EmptyString => true
  | String c s' => Re.is_space c && all_space s'
  end.

(** A quote occurs on the first line of [s]. *)
Fixpoint quote_on_first_line (s : string) : bool :=
  match s with
  | EmptyString => false
  | String c s' =>
      if Ascii.eqb c Re.newline then false
      else is_quote c || quote_on_first_line s'
  end.

(** The number of lines of [s] that hold a quote; [seen] tells whether the
    line being read already showed one. *)
Fixpoint quoted_lines (seen : bool) (s : string) : nat :=
  match s with
  | EmptyString => if seen then 1 else 0
  | String c s' =>
      if Ascii.eqb c Re.newline then (if seen then 1 else 0) + quoted_lines false s'
      else quoted_lines (seen || is_quote c) s'
  end.

(** The group's text after the characters [taken] were consumed. *)
Fixpoint pushes (cap : bool) (g : string) (taken : string) : string :=
  match taken with
  | EmptyString => g
  | String c t => pushes cap (Re.push cap g c) t
  end.

Fixpoint all_match (a : Re.atom) (s : string) : bool :=
  match s with
  | EmptyString => true
  | String c s' => Re.atom_matches a c && all_match a s'
  end.

Definition is_open_call (c : call) : bool :=
  match c with
  | COpen _ _ => true
  | _ => false
  end.

(** The node reached from a position along a relative path. *)
Definition reach (pos : position) (rel : string) : option node :=
  match steps pos (Py.split_sep rel) with
  | Some ((_, n) :: _) => Some n
  | _ => None
  end.

(** Two trees that answer [os.stat] alike on every absolute path. *)
Definition same_absolute (fs fs' : filesystem) : Prop :=
  forall p, Py.startswith p "/" = true -> stat fs p = stat fs' p.

Fixpoint count_newlines (s : string) : nat :=
  match s with
  | EmptyString => 0
  | String c s' => (if Ascii.eqb c Re.newline then 1 else 0) + count_newlines s'
  end.

(* ===================================================================== *)
(** ** fix_unused.py: removing an item from an import line *)
(* ===================================================================== *)

Module Sub.

(** [\w] on a [str] pattern, for the code points 0..255. *)
Definition is_word (c : ascii) : bool :=
  let n := nat_of_ascii c in
  (((48 <=? n) && (n <=? 57)) || ((65 <=? n) && (n <=? 90)) || (n =? 95) ||
   ((97 <=? n) && (n <=? 122)) || (n =? 170) || ((178 <=? n) && (n <=? 179)) ||
   (n =? 181) || ((185 <=? n) && (n <=? 186)) || ((188 <=? n) && (n <=? 190)) ||
   ((192 <=? n) && (n <=? 214)) || ((216 <=? n) && (n <=? 246)) ||
   ((248 <=? n) && (n <=? 255)))%nat.

Definition word_before (prev : option ascii) : bool :=
  match prev with
  | Some c => is_word c
  | None => false
  end.

Definition word_ahead (s : string) : bool :=
  match s with
  | String c _ => is_word c
  | EmptyString => false
  end.

(** A pattern without group: single characters, greedy repetitions [a*] and
    the word boundary [\b]. *)
Inductive item : Type :=
| One (a : Re.atom)
| Star (a : Re.atom)
| Boundary.

(** The greedy [a*]: take one more character and go on; when the remainder
    of the pattern then fails (or the character does not fit), stop here.
    [prev] is the character before the position. *)
Fixpoint star (a : Re.atom) (cont : option ascii -> string -> option string)
    (prev : option ascii) (s : string) : option string :=
  match s with
  | String c s' =>
      if Re.atom_matches a c then
        match star a cont (Some c) s' with
        | Some r => Some r
        | None => cont prev s
        end
      else cont prev s
  | EmptyString => cont prev s
  end.

(** Backtracking match of [its] at the start of [s]: the rest of [s] after
    the match. *)
Fixpoint smatch (its : list item) : option ascii -> string -> option string :=
  match its with
  | [] => fun _ s => Some s
  | One a :: k =>
      fun _ s =>
        match s with
        | String c s' => if Re.atom_matches a c then smatch k (Some c) s' else None
        | EmptyString => None
        end
  | Star a :: k => fun prev s => star a (smatch k) prev s
  | Boundary :: k =>
      fun prev s =>
        if xorb (word_before prev) (word_ahead s) then smatch k prev s else None
  end.

(** [re.sub] for a pattern that matches no empty text: scan from the left;
    where the pattern matches, put [repl] and go on after the match ([skip]
    counts the characters of the match still to pass); elsewhere keep the
    character. *)
Fixpoint sub_from (its : list item) (repl : string) (skip : nat)
    (prev : option ascii) (s : string) : string :=
  match s with
  | EmptyString => EmptyString
  | String c s' =>
      match skip with
      | S k => sub_from its repl k (Some c) s'
      | O =>
          match smatch its prev s with
          | Some rest =>
              repl ++
              sub_from its repl (String.length s - String.length rest - 1)
                       (Some c) s'
          | None => String c (sub_from its repl 0 (Some c) s')
          end
      end
  end.

Definition sub (its : list item) (repl : string) (s : string) : string :=
  sub_from its repl 0 None s.

Fixpoint literal (s : string) : list item :=
  match s with
  | EmptyString => []
  | String c s' => One (Re.Chr c) :: literal s'
  end.

Fixpoint all_word (s : string) : bool :=
  match s with
  | EmptyString => true
  | String c s' => is_word c && all_word s'
  end.

End Sub.

(** [r',\s*' + what + r'\b'], for a [what] made of word characters (letters,
    digits, underscore), which the pattern then takes literally. *)
Definition item_re (what : string) : list Sub.item :=
  Sub.One (Re.Chr ",") :: Sub.Star Re.Space :: Sub.literal what ++ [Sub.Boundary].

(** [re.sub(r',\s*' + what + r'\b', '', line)] *)
Definition remove_from_import_line (line what : string) : string :=
  Sub.sub (item_re what) "" line.

Fixpoint has_comma (s : string) : bool :=
  match s with
  | EmptyString => false
  | String c s' => Ascii.eqb c "," || has_comma s'
  end.

(** The character before the position, after [s] was passed. *)
Fixpoint before_after (prev : option ascii) (s : string) : option ascii :=
  match s with
  | EmptyString => prev
  | String c s' => before_after (Some c) s'
  end.

(* ===================================================================== *)
(** ** Strings and paths *)
(* ===================================================================== *)

#[local] Arguments Ascii.eqb : simpl never.
#[local] Arguments String.eqb : simpl never.

Lemma append_empty_r (s : string) : (s ++ "")%string = s.
Proof. induction s as [|c s IH]; simpl; [reflexivity | now rewrite IH]. Qed.

Lemma append_assoc (a b c : string) : ((a ++ b) ++ c)%string = (a ++ b ++ c)%string.
Proof. induction a as [|x a IH]; simpl; [reflexivity | now rewrite IH]. Qed.

Lemma startswith_append (a b : string) : Py.startswith (a ++ b) a = true.
Proof.
  induction a as [|x a IH]; simpl; [reflexivity|].
  now rewrite Ascii.eqb_refl, IH.
Qed.

Lemma drop_split (k : nat) (s : string) :
  exists pre, s = (pre ++ Py.drop k s)%string.
Proof.
  revert s; induction k as [|k IH]; intros s.
  - now exists "".
  - destruct s as [|c s]; simpl.
    + now exists "".
    + destruct (IH s) as [pre E]. exists (String c pre). simpl. now rewrite <- E.
Qed.

Lemma endswith_split (s p : string) :
  Py.endswith s p = true -> exists pre, s = (pre ++ p)%string.
Proof.
  unfold Py.endswith. intros H. apply andb_true_iff in H as [_ H].
  apply String.eqb_eq in H.
  destruct (drop_split (String.length s - String.length p) s) as [pre E].
  exists pre. now rewrite H in E.
Qed.

Lemma split_sep_nonempty (s : string) : Py.split_sep s <> [].
Proof.
  induction s as [|c s IH]; simpl; [discriminate|].
  destruct (Py.is_sep c); [discriminate|].
  destruct (Py.split_sep s); [now elim IH | discriminate].
Qed.

Lemma split_sep_app (a b : string) :
  Py.split_sep (a ++ String Py.sep b) = Py.split_sep a ++ Py.split_sep b.
Proof.
  induction a as [|c a IH]; simpl.
  - reflexivity.
  - rewrite IH. destruct (Py.is_sep c); [reflexivity|].
    destruct (Py.split_sep a) as [|h t] eqn:E; [now elim (split_sep_nonempty a)|].
    reflexivity.
Qed.

Lemma split_sep_plain (s : string) :
  has_sep s = false -> Py.split_sep s = [s].
Proof.
  induction s as [|c s IH]; simpl; [reflexivity|].
  intros H. apply orb_false_iff in H as [Hc Hs].
  rewrite Hc, (IH Hs). reflexivity.
Qed.

Lemma valid_name_spec (s : string) :
  valid_name s = true ->
  s <> "" /\ s <> "." /\ s <> ".." /\ has_sep s = false.
Proof.
  unfold valid_name. intros H.
  repeat (apply andb_true_iff in H as [H ?]).
  repeat match goal with
         | X : negb _ = true |- _ => apply negb_true_iff in X
         end.
  repeat split; try (apply String.eqb_neq; assumption). assumption.
Qed.

Lemma valid_name_not_abs (s : string) :
  valid_name s = true -> Py.startswith s "/" = false.
Proof.
  intros H. apply valid_name_spec in H as (Hn & _ & _ & Hs).
  destruct s as [|c s]; [now elim Hn|].
  simpl in Hs. apply orb_false_iff in Hs as [Hc _].
  simpl. unfold Py.is_sep, Py.sep in Hc.
  rewrite Ascii.eqb_sym in Hc. rewrite Hc. reflexivity.
Qed.

(** The two shapes of [join top name] for a directory entry. *)
Lemma join_entry (top name : string) :
  valid_name name = true ->
  Py.join top name = (top ++ name)%string /\
    (top = "" \/ exists pre, top = (pre ++ "/")%string)
  \/ Py.join top name = (top ++ String Py.sep name)%string /\ top <> "".
Proof.
  intros Hv. unfold Py.join. rewrite (valid_name_not_abs _ Hv).
  destruct (String.eqb top "") eqn:E; simpl.
  - left. split; [reflexivity|]. left. now apply String.eqb_eq.
  - destruct (Py.endswith top "/") eqn:F.
    + left. split; [reflexivity|]. right. now apply endswith_split.
    + right. split; [reflexivity|]. now apply String.eqb_neq.
Qed.

(* ===================================================================== *)
(** ** Path resolution *)
(* ===================================================================== *)

Lemma node_induction (P : node -> Prop) :
  (forall t, P (File t)) ->
  (forall es, Forall (fun e => P (snd e)) es -> P (Dir es)) ->
  forall n, P n.
Proof.
  intros HF HD. fix IH 1. intros [t|es].
  - apply HF.
  - apply HD. induction es as [|[k c] es IHes]; constructor.
    + apply IH.
    + exact IHes.
Qed.

Lemma wf_node_dir (es : list (string * node)) :
  wf_node (Dir es) =
  nodup_names (map fst es) &&
  forallb (fun e => valid_name (fst e) && wf_node (snd e)) es.
Proof.
  simpl. f_equal. induction es as [|[k c] es IH]; simpl; [reflexivity|].
  now rewrite IH.
Qed.

Lemma walk_node_dir (top : string) (es : list (string * node)) :
  walk_node top (Dir es) =
  (top, dirnames es, filenames es) ::
  flat_map (fun e => walk_node (Py.join top (fst e)) (snd e)) es.
Proof.
  simpl. f_equal. induction es as [|[k c] es IH]; simpl; [reflexivity|].
  now rewrite IH.
Qed.

Lemma mem_name_in (k : string) (c : node) (es : list (string * node)) :
  In (k, c) es -> mem_name k (map fst es) = true.
Proof.
  induction es as [|[k' c'] es IH]; simpl; [tauto|].
  intros [E|H].
  - inversion E; subst. now rewrite String.eqb_refl.
  - rewrite (IH H). apply orb_true_r.
Qed.

Lemma lookup_in (k : string) (c : node) (es : list (string * node)) :
  nodup_names (map fst es) = true -> In (k, c) es -> lookup k es = Some c.
Proof.
  induction es as [|[k' c'] es IH]; simpl; [tauto|].
  intros Hnd [E|H].
  - inversion E; subst. now rewrite String.eqb_refl.
  - apply andb_true_iff in Hnd as [Hk Hnd].
    destruct (String.eqb k' k) eqn:E.
    + apply String.eqb_eq in E; subst k'.
      rewrite (mem_name_in _ _ _ H) in Hk. discriminate.
    + now apply IH.
Qed.

Lemma lookup_some_in (k : string) (c : node) (es : list (string * node)) :
  lookup k es = Some c -> In (k, c) es.
Proof.
  induction es as [|[k' c'] es IH]; simpl; [discriminate|].
  destruct (String.eqb k' k) eqn:E.
  - intros H; inversion H; subst. apply String.eqb_eq in E; subst. now left.
  - intros H. right. now apply IH.
Qed.

Lemma wf_entry (es : list (string * node)) (k : string) (c : node) :
  wf_node (Dir es) = true -> In (k, c) es ->
  valid_name k = true /\ wf_node c = true /\ lookup k es = Some c.
Proof.
  rewrite wf_node_dir. intros H Hin.
  apply andb_true_iff in H as [Hnd Hall].
  rewrite forallb_forall in Hall. specialize (Hall _ Hin). simpl in Hall.
  apply andb_true_iff in Hall as [Hv Hw].
  repeat split; try assumption. now apply lookup_in.
Qed.

Lemma steps_app (pos : position) (l1 l2 : list string) :
  steps pos (l1 ++ l2) =
  match steps pos l1 with
  | Some pos' => steps pos' l2
  | None => None
  end.
Proof.
  revert pos; induction l1 as [|c l1 IH]; intros pos; simpl; [reflexivity|].
  destruct (step pos c); [apply IH | reflexivity].
Qed.

Lemma step_empty (pos pos' : position) :
  step pos "" = Some pos' -> pos' = pos.
Proof.
  unfold step. destruct pos as [|[k [t|es]] up]; try discriminate.
  simpl. intros H; now inversion H.
Qed.

Lemma step_name (k : string) (es : list (string * node)) (up : position)
    (name : string) :
  valid_name name = true ->
  step ((k, Dir es) :: up) name =
  match lookup name es with
  | Some n => Some ((name, n) :: (k, Dir es) :: up)
  | None => None
  end.
Proof.
  intros Hv. apply valid_name_spec in Hv as (H1 & H2 & H3 & _).
  unfold step.
  apply String.eqb_neq in H1, H2, H3. now rewrite H1, H2, H3.
Qed.

Lemma start_position_join (fs : filesystem) (top name : string) :
  top <> "" -> valid_name name = true ->
  start_position fs (Py.join top name) = start_position fs top.
Proof.
  intros Ht Hv. unfold start_position.
  destruct (join_entry top name Hv) as [[-> Hs]|[-> _]].
  - destruct top as [|c top]; [now elim Ht|]. reflexivity.
  - destruct top as [|c top]; [now elim Ht|]. reflexivity.
Qed.

Lemma join_nonempty (top name : string) :
  top <> "" -> valid_name name = true -> Py.join top name <> "".
Proof.
  intros Ht Hv.
  destruct (join_entry top name Hv) as [[-> _]|[-> _]];
    destruct top; try (now elim Ht); discriminate.
Qed.

(** Resolving [join top name] is resolving [top], then one step. *)
Lemma resolve_join (fs : filesystem) (top name : string) (pos : position) :
  valid_name name = true ->
  resolve fs top = Some pos ->
  resolve fs (Py.join top name) = step pos name.
Proof.
  intros Hv Hr.
  assert (Ht : top <> "").
  { intros ->. unfold resolve in Hr. discriminate. }
  unfold resolve in *.
  destruct (String.eqb top "") eqn:E; [discriminate|].
  pose proof (join_nonempty top name Ht Hv) as Hj.
  apply String.eqb_neq in Hj. rewrite Hj.
  rewrite (start_position_join fs top name Ht Hv).
  destruct (start_position fs top) as [p0|]; [|discriminate].
  pose proof (proj2 (proj2 (proj2 (valid_name_spec _ Hv)))) as Hs.
  destruct (join_entry top name Hv) as [[-> [->|[pre ->]]]|[-> _]].
  - now elim Ht.
  - rewrite append_assoc. change ("/" ++ name)%string with (String Py.sep name).
    change (pre ++ "/")%string with (pre ++ String Py.sep "")%string in Hr.
    rewrite split_sep_app in *. rewrite steps_app in *.
    destruct (steps p0 (Py.split_sep pre)) as [p1|]; [|discriminate].
    rewrite (split_sep_plain _ Hs). simpl in *.
    destruct (step p1 "") as [p2|] eqn:F; [|discriminate].
    apply step_empty in F. subst p2. inversion Hr; subst.
    now destruct (step pos name).
  - rewrite split_sep_app, steps_app, Hr, (split_sep_plain _ Hs). simpl.
    now destruct (step pos name).
Qed.

Lemma step_wf (pos pos' : position) (c : string) :
  wf_position pos -> step pos c = Some pos' -> wf_position pos'.
Proof.
  unfold step, wf_position. intros Hw.
  destruct pos as [|[k [t|es]] up]; try discriminate.
  destruct (_ || _).
  - intros H; now inversion H.
  - destruct (String.eqb c "..").
    + intros H; inversion H; subst. destruct up; [assumption|].
      now inversion Hw.
    + destruct (lookup c es) as [n|] eqn:L; [|discriminate].
      intros H; inversion H; subst. constructor; [|assumption].
      simpl. apply lookup_some_in in L.
      inversion Hw; subst. simpl in *.
      now destruct (wf_entry _ _ _ H2 L) as (_ & ? & _).
Qed.

Lemma steps_wf (cs : list string) (pos pos' : position) :
  wf_position pos -> steps pos cs = Some pos' -> wf_position pos'.
Proof.
  revert pos; induction cs as [|c cs IH]; intros pos Hw; simpl.
  - intros H; inversion H; subst; assumption.
  - destruct (step pos c) as [p|] eqn:E; [|discriminate].
    apply IH. eapply step_wf; eassumption.
Qed.

Lemma resolve_wf (fs : filesystem) (p : string) (pos : position) :
  wf_fs fs = true -> resolve fs p = Some pos -> wf_position pos.
Proof.
  unfold wf_fs, resolve, start_position. intros Hw.
  apply andb_true_iff in Hw as [_ Hw].
  assert (H0 : wf_position (root_position fs)).
  { constructor; [exact Hw | constructor]. }
  destruct (String.eqb p ""); [discriminate|].
  destruct (Py.startswith p "/").
  - now apply steps_wf.
  - destruct (steps (root_position fs) (fs_cwd fs)) as [p1|] eqn:E; [|discriminate].
    apply steps_wf. eapply steps_wf; eassumption.
Qed.

Lemma filenames_in (f : string) (es : list (string * node)) :
  In f (filenames es) -> exists t, In (f, File t) es.
Proof.
  unfold filenames. rewrite in_map_iff. intros [[k c] [E H]].
  apply filter_In in H as [H1 H2]. simpl in *. subst k.
  destruct c as [t|?]; [|discriminate]. now exists t.
Qed.

Lemma resolve_entry (fs : filesystem) (top k name : string)
    (es : list (string * node)) (up : position) (c : node) :
  wf_fs fs = true ->
  resolve fs top = Some ((k, Dir es) :: up) ->
  In (name, c) es ->
  resolve fs (Py.join top name) = Some ((name, c) :: (k, Dir es) :: up).
Proof.
  intros Hw Hr Hin.
  pose proof (resolve_wf _ _ _ Hw Hr) as Hp. inversion Hp; subst. simpl in *.
  destruct (wf_entry _ _ _ H1 Hin) as (Hv & _ & Hl).
  rewrite (resolve_join _ _ _ _ Hv Hr), (step_name _ _ _ _ Hv), Hl.
  reflexivity.
Qed.

(** Every file the walk lists can be opened: its path leads to a file. *)
Lemma walk_node_files (fs : filesystem) (Hw : wf_fs fs = true) (n : node) :
  forall top k up,
    resolve fs top = Some ((k, n) :: up) ->
    forall subdir dirs files,
      In (subdir, dirs, files) (walk_node top n) ->
      forall f, In f files ->
        exists t, stat fs (Py.join subdir f) = Some (File t).
Proof.
  induction n as [t|es IH] using node_induction; intros top k up Hr subdir dirs files Hin f Hf.
  - destruct Hin.
  - rewrite walk_node_dir in Hin. destruct Hin as [E|Hin].
    + inversion E; subst. apply filenames_in in Hf as [t Ht].
      exists t. unfold stat.
      now rewrite (resolve_entry _ _ _ _ _ _ _ Hw Hr Ht).
    + apply in_flat_map in Hin as [[name c] [Hc Hin]]. simpl in Hin.
      rewrite Forall_forall in IH.
      eapply (IH _ Hc); try eassumption.
      eapply resolve_entry; eassumption.
Qed.

Lemma walk_files (fs : filesystem) (top subdir : string)
    (dirs files : list string) (f : string) :
  wf_fs fs = true ->
  In (subdir, dirs, files) (walk fs top) -> In f files ->
  exists t, stat fs (Py.join subdir f) = Some (File t).
Proof.
  unfold walk, stat at 1. intros Hw Hin Hf.
  destruct (resolve fs top) as [[|[k n] up]|] eqn:E; try destruct Hin.
  eapply walk_node_files; eassumption.
Qed.

Lemma isdir_exists (fs : filesystem) (p : string) :
  isdir fs p = true -> exists_ fs p = true.
Proof.
  unfold isdir, exists_. now destruct (stat fs p).
Qed.

(* ===================================================================== *)
(** ** Running the script's pieces *)
(* ===================================================================== *)

Lemma extends_nil (w : world) : extends w [] [] = w.
Proof. destruct w. unfold extends. simpl. now rewrite !app_nil_r. Qed.

Lemma extends_extends (w : world) (l1 l2 : list string) (d1 d2 : list call) :
  extends (extends w l1 d1) l2 d2 = extends w (l1 ++ l2) (d1 ++ d2).
Proof. unfold extends. simpl. now rewrite !app_assoc. Qed.

Lemma log_extends (c : call) (w : world) : log c w = extends w [] [c].
Proof. unfold log, extends. now rewrite app_nil_r. Qed.

Lemma runs_ret {A : Type} (a : A) (w : world) : runs_to (ret a) w a [] [].
Proof. unfold runs_to, ret. now rewrite extends_nil. Qed.

Lemma runs_bind {A B : Type} (m : M A) (f : A -> M B) (w : world)
    (a : A) (b : B) (l1 l2 : list string) (d1 d2 : list call) :
  runs_to m w a l1 d1 ->
  runs_to (f a) (extends w l1 d1) b l2 d2 ->
  runs_to (bind m f) w b (l1 ++ l2) (d1 ++ d2).
Proof.
  unfold runs_to, bind. intros -> ->. now rewrite extends_extends.
Qed.

Lemma runs_print (line : string) (w : world) :
  runs_to (print line) w tt [line] [].
Proof. unfold runs_to, print, extends. now rewrite app_nil_r. Qed.

Lemma runs_exists (p : string) (w : world) :
  runs_to (path_exists p) w (exists_ (w_fs w) p) [] [CExists p].
Proof. unfold runs_to, path_exists. now rewrite log_extends. Qed.

Lemma runs_isdir (p : string) (w : world) :
  runs_to (path_isdir p) w (isdir (w_fs w) p) [] [CIsDir p].
Proof. unfold runs_to, path_isdir. now rewrite log_extends. Qed.

Lemma runs_walk (top : string) (w : world) :
  runs_to (os_walk top) w (walk (w_fs w) top) [] [CWalk top].
Proof. unfold runs_to, os_walk. now rewrite log_extends. Qed.

Lemma runs_to_eq {A : Type} (m : M A) (w : world) (r r' : A)
    (l l' : list string) (d d' : list call) :
  runs_to m w r l d -> r = r' -> l = l' -> d = d' -> runs_to m w r' l' d'.
Proof. now intros H -> -> ->. Qed.

Lemma through_first_none (P : string -> bool) (l : list string) :
  existsb P l = false -> through_first P l = l.
Proof.
  induction l as [|x l IH]; simpl; [reflexivity|].
  intros H. apply orb_false_iff in H as [Hx Hl]. now rewrite Hx, IH.
Qed.

(** The loop over the suffixes: it finds a candidate exactly when one
    exists, and has tested the candidates through the first that does. *)
Lemma runs_probe (abs_path : string) (exts : list string) (w : world) :
  let cs := map (fun ext => (abs_path ++ ext)%string) exts in
  runs_to (probe abs_path exts) w
          (any_exists (w_fs w) cs) []
          (map CExists (through_first (exists_ (w_fs w)) cs)).
Proof.
  revert w; induction exts as [|ext exts IH]; intros w; simpl.
  - apply runs_ret.
  - destruct (exists_ (w_fs w) (abs_path ++ ext)) eqn:E; simpl.
    + eapply runs_to_eq.
      * eapply runs_bind; [apply runs_exists|]. rewrite E. apply runs_ret.
      * reflexivity.
      * reflexivity.
      * reflexivity.
    + eapply runs_to_eq.
      * eapply runs_bind; [apply runs_exists|]. rewrite E. apply IH.
      * reflexivity.
      * reflexivity.
      * reflexivity.
Qed.

Lemma candidates_last (fs : filesystem) (base : string) :
  any_exists fs (candidates base) = false -> exists_ fs base = false.
Proof.
  unfold any_exists, candidates, suffixes. simpl.
  rewrite append_empty_r. intros H.
  do 6 (apply orb_false_iff in H as [_ H]).
  apply orb_false_iff in H as [H _]. exact H.
Qed.

(** A directory is found by the empty suffix. *)
Lemma isdir_candidate (fs : filesystem) (base : string) :
  isdir fs base = true -> any_exists fs (candidates base) = true.
Proof.
  intros H. destruct (any_exists fs (candidates base)) eqn:E; [reflexivity|].
  apply candidates_last in E. apply isdir_exists in H. congruence.
Qed.

Lemma fallback_candidate (fs : filesystem) (base : string) :
  fallback fs base = true -> any_exists fs (candidates base) = true.
Proof.
  unfold fallback. intros H. apply andb_true_iff in H as [H _].
  now apply isdir_candidate.
Qed.

Lemma resolved_candidates (fs : filesystem) (base : string) :
  resolved fs base = any_exists fs (candidates base).
Proof.
  unfold resolved. destruct (any_exists fs (candidates base)) eqn:E; [reflexivity|].
  simpl. destruct (fallback fs base) eqn:F; [|reflexivity].
  apply fallback_candidate in F. congruence.
Qed.

(** Entered after the loop found nothing, the fallback asks whether the
    base path is a directory, is told no, and stops there. *)
Lemma runs_index_fallback (abs_path : string) (w : world) :
  any_exists (w_fs w) (candidates abs_path) = false ->
  runs_to (index_fallback abs_path) w false [] [CIsDir abs_path].
Proof.
  intros H. unfold index_fallback.
  destruct (isdir (w_fs w) abs_path) eqn:D.
  - apply isdir_candidate in D. congruence.
  - eapply runs_to_eq.
    + eapply runs_bind; [apply runs_isdir|]. rewrite D. apply runs_ret.
    + reflexivity.
    + reflexivity.
    + reflexivity.
Qed.

Lemma runs_report (found : bool) (filepath imp : string) (c : nat) (w : world) :
  runs_to (report found filepath imp c) w
          (c + List.length (if found then [] else [(filepath, imp)]))
          (missing_lines (if found then [] else [(filepath, imp)])) [].
Proof.
  unfold report. destruct found; simpl.
  - rewrite Nat.add_0_r. apply runs_ret.
  - eapply runs_to_eq.
    + eapply runs_bind; [apply runs_print|]. apply runs_ret.
    + reflexivity.
    + reflexivity.
    + reflexivity.
Qed.

(** One specifier: what is returned, printed and asked. *)
Lemma runs_check_import (root_dir filepath imp : string) (c : nat) (w : world) :
  runs_to (check_import root_dir filepath imp c) w
          (c + List.length (import_refs (w_fs w) root_dir filepath imp))
          (missing_lines (import_refs (w_fs w) root_dir filepath imp))
          (import_calls (w_fs w) root_dir filepath imp).
Proof.
  unfold check_import, import_refs, import_calls, is_missing, base_path, form_of.
  destruct (Py.startswith imp "@/") eqn:Ha.
  - rewrite resolved_candidates.
    set (base := Py.join root_dir (Py.drop 2 imp)).
    pose proof (runs_probe base suffixes w) as Hp. cbv zeta in Hp.
    fold (candidates base) in Hp.
    destruct (any_exists (w_fs w) (candidates base)) eqn:E.
    + eapply runs_to_eq.
      * eapply runs_bind; [exact Hp|]. simpl.
        eapply runs_bind; [apply runs_ret|]. apply runs_report.
      * reflexivity.
      * reflexivity.
      * simpl. now rewrite !app_nil_r.
    + eapply runs_to_eq.
      * eapply runs_bind; [exact Hp|]. simpl.
        eapply runs_bind; [apply runs_index_fallback; exact E|].
        apply runs_report.
      * reflexivity.
      * reflexivity.
      * reflexivity.
  - destruct (Py.startswith imp ".") eqn:Hr.
    + rewrite resolved_candidates.
      set (base := Py.join (Py.dirname filepath) imp).
      pose proof (runs_probe base suffixes w) as Hp. cbv zeta in Hp.
      fold (candidates base) in Hp.
      eapply runs_to_eq.
      * eapply runs_bind; [exact Hp|]. apply runs_report.
      * destruct (any_exists (w_fs w) (candidates base)); reflexivity.
      * destruct (any_exists (w_fs w) (candidates base)); reflexivity.
      * now rewrite app_nil_r.
    + simpl. rewrite Nat.add_0_r. apply runs_ret.
Qed.

Lemma missing_lines_app (a b : list (string * string)) :
  missing_lines (a ++ b) = missing_lines a ++ missing_lines b.
Proof. apply map_app. Qed.

(** A loop whose body is known on every element of the list. *)
Lemma runs_for_each {A : Type} (fs : filesystem) (body : A -> nat -> M nat)
    (refs : A -> list (string * string)) (calls : A -> list call)
    (l : list A) :
  (forall x, In x l -> forall c w, w_fs w = fs ->
     runs_to (body x c) w (c + List.length (refs x))
             (missing_lines (refs x)) (calls x)) ->
  forall c w, w_fs w = fs ->
    runs_to (for_each l body c) w (c + List.length (flat_map refs l))
            (missing_lines (flat_map refs l)) (flat_map calls l).
Proof.
  induction l as [|x l IH]; intros Hb c w Hw; simpl.
  - rewrite Nat.add_0_r. apply runs_ret.
  - eapply runs_to_eq.
    + eapply runs_bind.
      * apply Hb; [now left | exact Hw].
      * apply IH.
        -- intros y Hy. apply Hb. now right.
        -- exact Hw.
    + rewrite length_app. lia.
    + now rewrite missing_lines_app.
    + reflexivity.
Qed.

Lemma runs_open_read (p : string) (t : option string) (w : world) :
  stat (w_fs w) p = Some (File t) ->
  runs_to (open_ p ModeR) w (mkHandle ModeR t) [] [COpen p ModeR].
Proof.
  intros H. unfold runs_to, open_. now rewrite H, log_extends.
Qed.

(** [try: content = f.read()  except UnicodeDecodeError: continue] *)
Lemma runs_try_read (t : option string) (w : world) :
  runs_to (try_except (s <- read (mkHandle ModeR t) ;; ret (Some s))
                      is_decode_error (ret None))
          w t [] [].
Proof.
  unfold runs_to, try_except, bind, read, ret, raise. simpl.
  destruct t; simpl; now rewrite extends_nil.
Qed.

Lemma runs_check_file (fs : filesystem) (root_dir subdir file : string)
    (c : nat) (w : world) :
  w_fs w = fs ->
  (exists t, stat fs (Py.join subdir file) = Some (File t)) ->
  runs_to (check_file root_dir subdir file c) w
          (c + List.length (file_refs fs root_dir subdir file))
          (missing_lines (file_refs fs root_dir subdir file))
          (file_calls fs root_dir subdir file).
Proof.
  intros Hw [t Ht]. unfold check_file, file_refs, file_calls.
  fold (is_source file). destruct (is_source file).
  - unfold path_refs, path_calls, file_imports. rewrite Ht.
    destruct t as [content|].
    + eapply runs_to_eq.
      * eapply runs_bind; [apply runs_open_read; rewrite Hw; exact Ht|].
        eapply runs_bind; [apply runs_try_read|].
        apply (runs_for_each fs _
                 (import_refs fs root_dir (Py.join subdir file))
                 (import_calls fs root_dir (Py.join subdir file))).
        -- intros imp _ c' w' Hw'. rewrite <- Hw'. apply runs_check_import.
        -- exact Hw.
      * reflexivity.
      * reflexivity.
      * reflexivity.
    + eapply runs_to_eq.
      * eapply runs_bind; [apply runs_open_read; rewrite Hw; exact Ht|].
        eapply runs_bind; [apply runs_try_read|]. apply runs_ret.
      * simpl. lia.
      * reflexivity.
      * reflexivity.
  - simpl. rewrite Nat.add_0_r. apply runs_ret.
Qed.

Lemma runs_check_dir (fs : filesystem) (root_dir : string) (e : walk_entry)
    (c : nat) (w : world) :
  w_fs w = fs ->
  (forall f, In f (snd e) ->
     exists t, stat fs (Py.join (fst (fst e)) f) = Some (File t)) ->
  runs_to (check_dir root_dir e c) w
          (c + List.length (dir_refs fs root_dir e))
          (missing_lines (dir_refs fs root_dir e))
          (dir_calls fs root_dir e).
Proof.
  destruct e as [[subdir dirs] files]. simpl. intros Hw Hf.
  unfold check_dir, dir_refs, dir_calls. simpl.
  apply (runs_for_each fs _ (file_refs fs root_dir subdir)
           (file_calls fs root_dir subdir)); [|exact Hw].
  intros f Hin c' w' Hw'. apply runs_check_file; [exact Hw' | now apply Hf].
Qed.

(** The walk on a well-formed tree never raises; it counts and prints the
    missing references of every directory in turn. *)
Lemma runs_scan (fs : filesystem) (root_dir : string) (w : world) :
  wf_fs fs = true -> w_fs w = fs ->
  runs_to (scan root_dir) w
          (List.length (flat_map (dir_refs fs root_dir) (walk fs root_dir)))
          (missing_lines (flat_map (dir_refs fs root_dir) (walk fs root_dir)))
          (run_calls fs root_dir).
Proof.
  intros Hwf Hw. unfold scan, run_calls.
  eapply runs_to_eq.
  - eapply runs_bind; [apply runs_walk|].
    rewrite Hw.
    apply (runs_for_each fs _ (dir_refs fs root_dir) (dir_calls fs root_dir));
      [|exact Hw].
    intros [[subdir dirs] files] Hin c w' Hw'.
    apply runs_check_dir; [exact Hw'|]. simpl.
    intros f Hf. eapply walk_files; eassumption.
  - reflexivity.
  - reflexivity.
  - reflexivity.
Qed.

Lemma flat_map_filter_map {A B C : Type} (P : A -> bool) (g : A -> B)
    (h : B -> list C) (l : list A) :
  flat_map (fun x => if P x then h (g x) else []) l =
  flat_map h (map g (filter P l)).
Proof.
  induction l as [|x l IH]; simpl; [reflexivity|].
  destruct (P x); simpl; now rewrite IH.
Qed.

Lemma flat_map_nested {A B C : Type} (k : A -> list B) (h : B -> list C)
    (l : list A) :
  flat_map h (flat_map k l) = flat_map (fun x => flat_map h (k x)) l.
Proof.
  induction l as [|x l IH]; simpl; [reflexivity|].
  now rewrite flat_map_app, IH.
Qed.

Lemma flat_map_ext_in {A B : Type} (f g : A -> list B) (l : list A) :
  (forall x, In x l -> f x = g x) -> flat_map f l = flat_map g l.
Proof.
  induction l as [|x l IH]; simpl; [reflexivity|].
  intros H. rewrite (H x (or_introl eq_refl)), IH; [reflexivity|].
  intros y Hy. apply H. now right.
Qed.

Lemma path_refs_filter (fs : filesystem) (root_dir filepath : string) :
  path_refs fs root_dir filepath =
  map (pair filepath)
      (filter (is_missing fs root_dir filepath) (file_imports fs filepath)).
Proof.
  unfold path_refs, import_refs.
  induction (file_imports fs filepath) as [|imp l IH]; simpl; [reflexivity|].
  destruct (is_missing fs root_dir filepath imp); simpl; now rewrite IH.
Qed.

(** The references the loops find are those of the specification. *)
Lemma dir_refs_missing_refs (fs : filesystem) (root_dir : string) :
  flat_map (dir_refs fs root_dir) (walk fs root_dir) = missing_refs fs root_dir.
Proof.
  unfold missing_refs, source_files. rewrite flat_map_nested.
  apply flat_map_ext_in. intros [[subdir dirs] files] _.
  unfold dir_refs, file_refs. simpl.
  rewrite flat_map_filter_map.
  apply flat_map_ext_in. intros fp _. apply path_refs_filter.
Qed.

Lemma runs_check_imports (fs : filesystem) (root_dir : string) (w : world) :
  wf_fs fs = true -> w_fs w = fs ->
  runs_to (check_imports root_dir) w tt
          (expected_output fs root_dir) (run_calls fs root_dir).
Proof.
  intros Hwf Hw. unfold check_imports, expected_output.
  pose proof (runs_scan fs root_dir w Hwf Hw) as Hs.
  rewrite dir_refs_missing_refs in Hs.
  destruct (Nat.eqb (List.length (missing_refs fs root_dir)) 0) eqn:E.
  - eapply runs_to_eq.
    + eapply runs_bind; [exact Hs|]. rewrite E. apply runs_print.
    + reflexivity.
    + reflexivity.
    + now rewrite app_nil_r.
  - eapply runs_to_eq.
    + eapply runs_bind; [exact Hs|]. rewrite E. apply runs_ret.
    + reflexivity.
    + reflexivity.
    + now rewrite app_nil_r.
Qed.

(* ===================================================================== *)
(** ** Programs that only read *)
(* ===================================================================== *)

Create HintDb reads.

Lemma reads_only_ret {A : Type} (a : A) : reads_only (ret a).
Proof.
  intros w. split; [reflexivity|]. exists []. now rewrite app_nil_r.
Qed.

Lemma reads_only_raise {A : Type} (e : exn) : reads_only (@raise A e).
Proof.
  intros w. split; [reflexivity|]. exists []. now rewrite app_nil_r.
Qed.

Lemma reads_only_bind {A B : Type} (m : M A) (f : A -> M B) :
  reads_only m -> (forall a, reads_only (f a)) -> reads_only (bind m f).
Proof.
  intros Hm Hf w. unfold bind.
  destruct (Hm w) as (F1 & d1 & C1 & R1).
  destruct (m w) as [[a|e] w1]; simpl in *.
  - destruct (Hf a w1) as (F2 & d2 & C2 & R2).
    split; [congruence|]. exists (d1 ++ d2).
    rewrite C2, C1, app_assoc, forallb_app, R1, R2. now split.
  - split; [assumption|]. now exists d1.
Qed.

Lemma reads_only_try {A : Type} (body handler : M A) (caught : exn -> bool) :
  reads_only body -> reads_only handler ->
  reads_only (try_except body caught handler).
Proof.
  intros Hb Hh w. unfold try_except.
  destruct (Hb w) as (F1 & d1 & C1 & R1).
  destruct (body w) as [[a|e] w1]; simpl in *.
  - split; [assumption|]. now exists d1.
  - destruct (caught e); simpl.
    + destruct (Hh w1) as (F2 & d2 & C2 & R2).
      split; [congruence|]. exists (d1 ++ d2).
      rewrite C2, C1, app_assoc, forallb_app, R1, R2. now split.
    + split; [assumption|]. now exists d1.
Qed.

Lemma reads_only_print (line : string) : reads_only (print line).
Proof.
  intros w. split; [reflexivity|]. exists []. simpl. now rewrite app_nil_r.
Qed.

Lemma reads_only_exists (p : string) : reads_only (path_exists p).
Proof. intros w. split; [reflexivity|]. now exists [CExists p]. Qed.

Lemma reads_only_isdir (p : string) : reads_only (path_isdir p).
Proof. intros w. split; [reflexivity|]. now exists [CIsDir p]. Qed.

Lemma reads_only_walk (top : string) : reads_only (os_walk top).
Proof. intros w. split; [reflexivity|]. now exists [CWalk top]. Qed.

(** Opening for reading changes nothing, whether it succeeds or not. *)
Lemma reads_only_open_read (p : string) : reads_only (open_ p ModeR).
Proof.
  intros w. unfold open_.
  destruct (stat (w_fs w) p) as [[t|es]|]; simpl;
    (split; [reflexivity|]); now exists [COpen p ModeR].
Qed.

Lemma reads_only_read (f : handle) : reads_only (read f).
Proof.
  unfold read. destruct (h_mode f), (h_text f);
    first [apply reads_only_ret | apply reads_only_raise].
Qed.

Lemma reads_only_for_each {A : Type} (l : list A) (body : A -> nat -> M nat) :
  (forall x c, reads_only (body x c)) ->
  forall c, reads_only (for_each l body c).
Proof.
  intros Hb. induction l as [|x l IH]; intros c; simpl.
  - apply reads_only_ret.
  - apply reads_only_bind; [apply Hb | exact IH].
Qed.

#[local] Hint Resolve reads_only_ret reads_only_raise reads_only_print
  reads_only_exists reads_only_isdir reads_only_walk reads_only_open_read
  reads_only_read : reads.

Ltac reads_step :=
  first [ apply reads_only_bind; [|intros ?]
        | apply reads_only_try
        | apply reads_only_for_each; intros ? ?
        | match goal with
          | |- reads_only (if ?b then _ else _) => destruct b
          | |- reads_only (match ?x with Some _ => _ | None => _ end) => destruct x
          end
        | solve [auto with reads] ].

Lemma reads_only_probe (abs_path : string) (exts : list string) :
  reads_only (probe abs_path exts).
Proof.
  induction exts as [|ext exts IH]; simpl; repeat reads_step.
Qed.

Lemma reads_only_index_fallback (abs_path : string) :
  reads_only (index_fallback abs_path).
Proof. unfold index_fallback. repeat reads_step. Qed.

Lemma reads_only_report (found : bool) (filepath imp : string) (c : nat) :
  reads_only (report found filepath imp c).
Proof. unfold report. repeat reads_step. Qed.

#[local] Hint Resolve reads_only_probe reads_only_index_fallback
  reads_only_report : reads.

Lemma reads_only_check_import (root_dir filepath imp : string) (c : nat) :
  reads_only (check_import root_dir filepath imp c).
Proof. unfold check_import. repeat reads_step. Qed.

#[local] Hint Resolve reads_only_check_import : reads.

Lemma reads_only_check_file (root_dir subdir file : string) (c : nat) :
  reads_only (check_file root_dir subdir file c).
Proof. unfold check_file. repeat reads_step. Qed.

#[local] Hint Resolve reads_only_check_file : reads.

Lemma reads_only_check_dir (root_dir : string) (e : walk_entry) (c : nat) :
  reads_only (check_dir root_dir e c).
Proof.
  destruct e as [[subdir dirs] files]. unfold check_dir. repeat reads_step.
Qed.

#[local] Hint Resolve reads_only_check_dir : reads.

Lemma reads_only_scan (root_dir : string) : reads_only (scan root_dir).
Proof. unfold scan. repeat reads_step. Qed.

#[local] Hint Resolve reads_only_scan : reads.

Lemma reads_only_check_imports (root_dir : string) :
  reads_only (check_imports root_dir).
Proof. unfold check_imports. repeat reads_step. Qed.

(* ===================================================================== *)
(** ** Resolution of one specifier *)
(* ===================================================================== *)

(** A specifier of the alias or relative form: the count, the line and the
    calls, from whether its base path resolves. *)
Lemma check_import_checked (root_dir filepath imp : string) (c : nat) (w : world) :
  form_of imp <> Bare ->
  let base := base_path root_dir filepath imp in
  check_import root_dir filepath imp c w =
  (Ok (if resolved (w_fs w) base then c else c + 1),
   extends w (if resolved (w_fs w) base then [] else [missing_line filepath imp])
           (import_calls (w_fs w) root_dir filepath imp)).
Proof.
  intros Hf base. rewrite (runs_check_import root_dir filepath imp c w).
  unfold import_refs, is_missing. fold base.
  destruct (form_of imp); [| |now elim Hf];
    destruct (resolved (w_fs w) base); simpl; now rewrite ?Nat.add_0_r.
Qed.

Lemma filter_exists_calls (l : list string) :
  filter is_exists_call (map CExists l) = map CExists l.
Proof. induction l as [|x l IH]; simpl; [reflexivity | now rewrite IH]. Qed.

Lemma import_calls_tests (fs : filesystem) (root_dir filepath imp : string) :
  form_of imp <> Bare ->
  filter is_exists_call (import_calls fs root_dir filepath imp) =
  map CExists (through_first (exists_ fs)
                 (candidates (base_path root_dir filepath imp))).
Proof.
  intros Hf. unfold import_calls.
  destruct (form_of imp); [| |now elim Hf].
  - rewrite filter_app, filter_exists_calls.
    destruct (any_exists _ _); simpl; now rewrite app_nil_r.
  - apply filter_exists_calls.
Qed.

Lemma form_alias (imp : string) :
  Py.startswith imp "@/" = true -> form_of imp = Alias.
Proof. unfold form_of. now intros ->. Qed.

Lemma relative_not_alias (imp : string) :
  Py.startswith imp "." = true -> Py.startswith imp "@/" = false.
Proof.
  destruct imp as [|a imp]; simpl; [discriminate|].
  intros H. apply andb_true_iff in H as [H _].
  apply Ascii.eqb_eq in H. subst a. reflexivity.
Qed.

Lemma form_relative (imp : string) :
  Py.startswith imp "." = true -> form_of imp = Relative.
Proof.
  intros H. unfold form_of. now rewrite (relative_not_alias _ H), H.
Qed.

Lemma form_bare (imp : string) :
  Py.startswith imp "." = false -> Py.startswith imp "@/" = false ->
  form_of imp = Bare.
Proof. unfold form_of. now intros -> ->. Qed.

(** [through_first] is a prefix that stops at the first hit: nothing before
    its last element satisfies [P], and its last element does unless the
    whole list was taken. *)
Lemma through_first_prefix (P : string -> bool) (l : list string) :
  exists n,
    through_first P l = firstn n l /\
    (forall x, In x (firstn (n - 1) l) -> P x = false) /\
    (existsb P l = true -> 1 <= n /\ P (nth (n - 1) l "") = true) /\
    (existsb P l = false -> n = List.length l).
Proof.
  induction l as [|x l (n & E & Hb & Ht & Hf)]; simpl.
  - exists 0. simpl. split; [reflexivity|]. split; [tauto|].
    split; [discriminate | reflexivity].
  - destruct (P x) eqn:Px; simpl.
    + exists 1. simpl. split; [reflexivity|]. split; [tauto|].
      split; [intros _; split; [lia | exact Px] | discriminate].
    + exists (S n). simpl. rewrite E, Nat.sub_0_r.
      split; [reflexivity|]. split; [|split].
      * destruct n as [|n]; simpl; [tauto|].
        simpl in Hb. rewrite Nat.sub_0_r in Hb.
        intros y [<-|Hy]; [exact Px | now apply Hb].
      * intros H. destruct (Ht H) as [Hn Hp]. split; [lia|].
        destruct n as [|n]; [lia|]. simpl in Hp. now rewrite Nat.sub_0_r in Hp.
      * intros H. now rewrite (Hf H).
Qed.

(* ===================================================================== *)
(** ** Resolution: candidates, forms and fallback *)
(* ===================================================================== *)

(** C1. For a specifier of the alias or of the relative form, the existence
    tests the script makes are the candidates [base ++ ext], for [ext] in
    [.ts], [.tsx], [.js], [.jsx], [/index.ts], [/index.tsx] and the empty
    suffix, taken in this order and stopping at the first that exists: the
    tests are the first [n] candidates, none of the first [n - 1] exists,
    the [n]-th does when any does, and [n] is seven when none does.  The
    specifier counts as resolved exactly when a candidate exists or the
    directory-index fallback holds; otherwise one line is printed and the
    count grows by one. *)
Theorem C1_candidates_in_order (root_dir filepath imp : string) (c : nat)
    (w : world) :
  form_of imp <> Bare ->
  let fs := w_fs w in
  let base := base_path root_dir filepath imp in
  let cands :=
    map (fun ext => (base ++ ext)%string)
        [".ts"; ".tsx"; ".js"; ".jsx"; "/index.ts"; "/index.tsx"; ""] in
  let result := check_import root_dir filepath imp c w in
  exists (d : list call) (n : nat),
    w_calls (snd result) = w_calls w ++ d /\
    filter is_exists_call d = map CExists (firstn n cands) /\
    (forall p, In p (firstn (n - 1) cands) -> exists_ fs p = false) /\
    (any_exists fs cands = true ->
       1 <= n /\ exists_ fs (nth (n - 1) cands "") = true) /\
    (any_exists fs cands = false -> n = 7) /\
    fst result =
      Ok (if any_exists fs cands || fallback fs base then c else c + 1) /\
    w_stdout (snd result) =
      w_stdout w ++
      (if any_exists fs cands || fallback fs base then []
       else [missing_line filepath imp]).
Proof.
  intros Hf fs base cands result.
  assert (Er : result = check_import root_dir filepath imp c w) by reflexivity.
  rewrite (check_import_checked root_dir filepath imp c w Hf) in Er.
  fold base fs in Er.
  destruct (through_first_prefix (exists_ fs) cands) as (n & E & Hb & Ht & Hn).
  exists (import_calls fs root_dir filepath imp), n.
  rewrite Er. simpl.
  split; [reflexivity|]. split.
  { rewrite (import_calls_tests fs root_dir filepath imp Hf). fold base.
    now rewrite <- E. }
  split; [exact Hb|]. split; [exact Ht|]. split; [exact Hn|].
  split; reflexivity.
Qed.

(** C2. Both forms are classified by the same rule on their base path: a
    specifier is resolved exactly when one of the seven candidates exists,
    or the base path is a directory that holds [index.ts] or [index.tsx].
    Hence an alias specifier and a relative specifier with the same base
    path are classified alike. *)
Theorem C2_same_rule_for_both_forms (root_dir file_a file_r imp_a imp_r : string)
    (c : nat) (w : world) :
  form_of imp_a = Alias ->
  form_of imp_r = Relative ->
  let fs := w_fs w in
  let base_a := Py.join root_dir (Py.drop 2 imp_a) in
  let base_r := Py.join (Py.dirname file_r) imp_r in
  let rule base :=
    any_exists fs (candidates base) ||
    (isdir fs base &&
     (exists_ fs (Py.join base "index.ts") ||
      exists_ fs (Py.join base "index.tsx"))) in
  fst (check_import root_dir file_a imp_a c w) =
    Ok (if rule base_a then c else c + 1) /\
  fst (check_import root_dir file_r imp_r c w) =
    Ok (if rule base_r then c else c + 1) /\
  (base_a = base_r ->
   fst (check_import root_dir file_a imp_a c w) =
   fst (check_import root_dir file_r imp_r c w)).
Proof.
  intros Ha Hr fs base_a base_r rule.
  assert (Na : form_of imp_a <> Bare) by (rewrite Ha; discriminate).
  assert (Nr : form_of imp_r <> Bare) by (rewrite Hr; discriminate).
  rewrite (check_import_checked root_dir file_a imp_a c w Na).
  rewrite (check_import_checked root_dir file_r imp_r c w Nr).
  unfold base_path. rewrite Ha, Hr. fold base_a base_r fs. simpl.
  split; [reflexivity|]. split; [reflexivity|].
  now intros ->.
Qed.

(** C3. For a specifier that starts with [@/], every call the script makes
    is on the base path [join(root_dir, imp[2:])]: an existence test of the
    base path with a suffix, or the directory test of the base path itself.
    What is tested and how the specifier is classified are the same
    whatever the importing file. *)
Theorem C3_alias_relative_to_root (root_dir imp : string) :
  Py.startswith imp "@/" = true ->
  forall (filepath filepath' : string) (c : nat) (w : world),
    let fs := w_fs w in
    let base := Py.join root_dir (Py.drop 2 imp) in
    let result := check_import root_dir filepath imp c w in
    let result' := check_import root_dir filepath' imp c w in
    w_calls (snd result) =
      w_calls w ++
      map CExists (through_first (exists_ fs) (candidates base)) ++
      (if any_exists fs (candidates base) then [] else [CIsDir base]) /\
    fst result = Ok (if resolved fs base then c else c + 1) /\
    fst result' = fst result /\
    w_calls (snd result') = w_calls (snd result).
Proof.
  intros Ha filepath filepath' c w fs base result result'.
  pose proof (form_alias _ Ha) as Hf.
  assert (N : form_of imp <> Bare) by (rewrite Hf; discriminate).
  unfold result, result'.
  rewrite (check_import_checked root_dir filepath imp c w N).
  rewrite (check_import_checked root_dir filepath' imp c w N).
  unfold import_calls, base_path. rewrite Hf. fold base fs. simpl.
  repeat split; reflexivity.
Qed.

(** C4. For a specifier that starts with [.], every call the script makes
    is an existence test of the base path
    [join(dirname(filepath), imp)] with a suffix, and the whole step is the
    same whatever the project root. *)
Theorem C4_relative_to_importing_file (filepath imp : string) :
  Py.startswith imp "." = true ->
  forall (root_dir root_dir' : string) (c : nat) (w : world),
    let fs := w_fs w in
    let base := Py.join (Py.dirname filepath) imp in
    let result := check_import root_dir filepath imp c w in
    Py.startswith imp "@/" = false /\
    w_calls (snd result) =
      w_calls w ++ map CExists (through_first (exists_ fs) (candidates base)) /\
    fst result = Ok (if resolved fs base then c else c + 1) /\
    check_import root_dir' filepath imp c w = result.
Proof.
  intros Hr root_dir root_dir' c w fs base result.
  pose proof (form_relative _ Hr) as Hf.
  assert (N : form_of imp <> Bare) by (rewrite Hf; discriminate).
  unfold result.
  rewrite (check_import_checked root_dir filepath imp c w N).
  rewrite (check_import_checked root_dir' filepath imp c w N).
  unfold import_calls, base_path. rewrite Hf. fold base fs. simpl.
  split; [now apply relative_not_alias|].
  repeat split; reflexivity.
Qed.

(** C5. For a specifier that starts neither with [.] nor with [@/], the
    step returns the count it was given and leaves the world as it was: no
    call is made, no line is printed.  This holds in every tree. *)
Theorem C5_bare_not_checked (root_dir filepath imp : string) (c : nat)
    (w : world) :
  Py.startswith imp "." = false ->
  Py.startswith imp "@/" = false ->
  check_import root_dir filepath imp c w = (Ok c, w) /\
  is_missing (w_fs w) root_dir filepath imp = false.
Proof.
  intros Hr Ha. split.
  - unfold check_import. now rewrite Ha, Hr.
  - unfold is_missing. now rewrite (form_bare _ Hr Ha).
Qed.

(** C10. The directory-index fallback of the alias form is never taken.
    When the base path is a directory, its candidate with the empty suffix
    exists and the loop over the suffixes finds it.  When the loop finds
    nothing, the fallback asks whether the base path is a directory, is
    told no, and makes no further test.  So the classification is the one
    of the seven candidates alone. *)
Theorem C10_fallback_never_taken (base : string) (w : world) :
  let fs := w_fs w in
  (isdir fs base = true ->
     exists_ fs (base ++ "") = true /\
     fst (probe base suffixes w) = Ok true) /\
  (fst (probe base suffixes w) = Ok false ->
     index_fallback base (snd (probe base suffixes w)) =
     (Ok false, log (CIsDir base) (snd (probe base suffixes w)))) /\
  resolved fs base = any_exists fs (candidates base).
Proof.
  intros fs.
  pose proof (runs_probe base suffixes w) as Hp. cbv zeta in Hp.
  fold (candidates base) in Hp. unfold runs_to in Hp. rewrite Hp.
  cbn [fst snd]. fold fs. split; [|split].
  - intros Hd. split.
    + rewrite append_empty_r. now apply isdir_exists.
    + now rewrite (isdir_candidate fs base Hd).
  - intros Hn.
    assert (E : any_exists fs (candidates base) = false).
    { destruct (any_exists fs (candidates base)); [discriminate | reflexivity]. }
    rewrite (runs_index_fallback base (extends w [] _)); [|exact E].
    now rewrite log_extends.
  - apply resolved_candidates.
Qed.

(* ===================================================================== *)
(** ** A whole run: output, decode errors, effects *)
(* ===================================================================== *)

Lemma missing_line_marked (filepath imp : string) :
  Py.startswith (missing_line filepath imp) "Missing import in " = true.
Proof. apply startswith_append. Qed.

Lemma missing_line_not_success (filepath imp : string) :
  missing_line filepath imp <> success_line.
Proof. unfold missing_line, success_line. simpl. discriminate. Qed.

Lemma success_not_in_missing_lines (refs : list (string * string)) :
  ~ In success_line (missing_lines refs).
Proof.
  unfold missing_lines. rewrite in_map_iff. intros [[f i] [E _]].
  now apply missing_line_not_success in E.
Qed.

Lemma count_missing_lines (refs : list (string * string)) :
  List.length
    (filter (fun l => Py.startswith l "Missing import in ") (missing_lines refs)) =
  List.length refs.
Proof.
  induction refs as [|[f i] refs IH]; [reflexivity|].
  unfold missing_lines in *. cbn [map fst snd filter].
  rewrite missing_line_marked. cbn [List.length]. now rewrite IH.
Qed.

(** C7. On a well-formed tree the run ends normally.  The walk prints one
    line [Missing import in <file-path>: <specifier>] for each missing
    reference, in the order of the walk and then of the text, and leaves
    their number as the count; then [No missing imports found.] is printed
    exactly when the count is zero.  So the number of missing-import lines
    is the count. *)
Theorem C7_output_contract (fs : filesystem) (root_dir : string) :
  wf_fs fs = true ->
  let refs := missing_refs fs root_dir in
  let lines :=
    map (fun r => ("Missing import in " ++ fst r ++ ": " ++ snd r)%string) refs in
  let out := w_stdout (snd (run fs root_dir)) in
  fst (scan root_dir (initial fs)) = Ok (List.length refs) /\
  w_stdout (snd (scan root_dir (initial fs))) = lines /\
  fst (run fs root_dir) = Ok tt /\
  out = lines ++
        (if Nat.eqb (List.length refs) 0 then ["No missing imports found."]
         else []) /\
  (In "No missing imports found." out <-> List.length refs = 0) /\
  List.length (filter (fun l => Py.startswith l "Missing import in ") out) =
    List.length refs.
Proof.
  intros Hwf refs lines out.
  pose proof (runs_scan fs root_dir (initial fs) Hwf eq_refl) as Hs.
  pose proof (runs_check_imports fs root_dir (initial fs) Hwf eq_refl) as Hr.
  rewrite dir_refs_missing_refs in Hs. unfold runs_to in Hs, Hr.
  fold refs in Hs. unfold expected_output in Hr. fold refs in Hr.
  change (missing_lines refs) with lines in Hs, Hr.
  assert (Eo : out = lines ++
                 (if Nat.eqb (List.length refs) 0 then [success_line] else [])).
  { unfold out, run. now rewrite Hr. }
  rewrite Hs. unfold run. rewrite Hr. cbn [fst snd extends w_stdout initial app].
  split; [reflexivity|]. split; [reflexivity|]. split; [reflexivity|].
  split; [exact Eo|]. split.
  - rewrite Eo. rewrite in_app_iff. split.
    + intros [H|H].
      * now apply success_not_in_missing_lines in H.
      * destruct (Nat.eqb_spec (List.length refs) 0); [assumption | destruct H].
    + intros E. right. rewrite E. now left.
  - rewrite Eo, filter_app, length_app.
    unfold lines. fold (missing_lines refs). rewrite count_missing_lines.
    destruct (Nat.eqb (List.length refs) 0); simpl; lia.
Qed.

(** C8. A source file whose bytes do not decode raises nothing: the error
    of [f.read()] is caught, the step for the file returns the count it was
    given, prints nothing and makes no call but the opening of the file.
    The loop goes on with the files that follow, and on a well-formed tree
    the run ends normally. *)
Theorem C8_decode_error_skipped (root_dir subdir file : string)
    (rest : list string) (c : nat) (w : world) :
  is_source file = true ->
  stat (w_fs w) (Py.join subdir file) = Some (File None) ->
  let opened := log (COpen (Py.join subdir file) ModeR) w in
  read (mkHandle ModeR None) opened = (Raise UnicodeDecodeError, opened) /\
  check_file root_dir subdir file c w = (Ok c, opened) /\
  w_stdout opened = w_stdout w /\
  file_imports (w_fs w) (Py.join subdir file) = [] /\
  for_each (file :: rest) (check_file root_dir subdir) c w =
    for_each rest (check_file root_dir subdir) c opened /\
  (wf_fs (w_fs w) = true -> fst (check_imports root_dir w) = Ok tt).
Proof.
  intros Hs Ht opened.
  assert (Ef : check_file root_dir subdir file c w = (Ok c, opened)).
  { unfold check_file. fold (is_source file). rewrite Hs.
    unfold bind, open_. rewrite Ht. fold opened.
    unfold try_except, bind, read. reflexivity. }
  split; [reflexivity|]. split; [exact Ef|]. split; [reflexivity|].
  split; [unfold file_imports; now rewrite Ht|]. split.
  - cbn [for_each]. unfold bind. now rewrite Ef.
  - intros Hwf.
    now rewrite (runs_check_imports (w_fs w) root_dir w Hwf eq_refl).
Qed.

(** C9. A run leaves the tree as it found it, and every call it makes to
    the operating system is a read: a walk, an opening for reading, an
    existence test or a directory test.  This holds from any world and
    whether the run ends normally or not. *)
Theorem C9_read_only (root_dir : string) (w : world) :
  w_fs (snd (check_imports root_dir w)) = w_fs w /\
  exists d,
    w_calls (snd (check_imports root_dir w)) = w_calls w ++ d /\
    forallb read_only d = true.
Proof. apply reads_only_check_imports. Qed.

(** C6.  The specification expects each quoted specifier that follows its
    own [from] to be extracted as an element of its own.  The script does
    not do so on a line with two imports: the greedy [.+] runs to the last
    quote of the line, and the one element extracted is
    [x'; import b from 'y], not the two specifiers [x] and [y]. *)
Theorem C6_greedy_group_merges_specifiers :
  extract_imports "import a from 'x'; import b from 'y'" =
  ["x'; import b from 'y"].
Proof. reflexivity. Qed.

(* ===================================================================== *)
(** ** Extraction of the specifiers *)
(* ===================================================================== *)

(** A match consumes a prefix of the text. *)
Lemma more_suffix (a : Re.atom)
    (cont : bool -> string -> string -> option (string * string)) :
  (forall cap g s g' rest,
     cont cap g s = Some (g', rest) -> exists pre, s = (pre ++ rest)%string) ->
  forall s cap g g' rest,
    Re.more a cont cap g s = Some (g', rest) ->
    exists pre, s = (pre ++ rest)%string.
Proof.
  intros Hc. induction s as [|c s IH]; intros cap g g' rest; simpl.
  - apply Hc.
  - destruct (Re.atom_matches a c); [|apply Hc].
    destruct (Re.more a cont cap (Re.push cap g c) s) as [[g1 r1]|] eqn:E.
    + intros H; inversion H; subst.
      destruct (IH _ _ _ _ E) as [pre ->]. now exists (String c pre).
    + apply Hc.
Qed.

Lemma rmatch_suffix (its : list Re.item) :
  forall cap g s g' rest,
    Re.rmatch its cap g s = Some (g', rest) ->
    exists pre, s = (pre ++ rest)%string.
Proof.
  induction its as [|[a|a| |] k IH]; intros cap g s g' rest; simpl.
  - intros H; inversion H; subst. now exists "".
  - destruct s as [|c s]; [discriminate|].
    destruct (Re.atom_matches a c); [|discriminate].
    intros H. destruct (IH _ _ _ _ _ H) as [pre ->]. now exists (String c pre).
  - destruct s as [|c s]; [discriminate|].
    destruct (Re.atom_matches a c); [|discriminate].
    intros H. destruct (more_suffix a _ IH _ _ _ _ _ H) as [pre ->].
    now exists (String c pre).
  - apply IH.
  - apply IH.
Qed.

Lemma rmatch_one_suffix (a : Re.atom) (k : list Re.item) (cap : bool)
    (g : string) (c : ascii) (s g' rest : string) :
  Re.rmatch (Re.One a :: k) cap g (String c s) = Some (g', rest) ->
  exists pre, s = (pre ++ rest)%string.
Proof.
  simpl. destruct (Re.atom_matches a c); [|discriminate].
  apply rmatch_suffix.
Qed.

Lemma length_append (a b : string) :
  String.length (a ++ b) = String.length a + String.length b.
Proof. induction a as [|c a IH]; simpl; [reflexivity | now rewrite IH]. Qed.

Lemma findall_from_skip (its : list Re.item) (pre rest : string) :
  Re.findall_from its (String.length pre) (pre ++ rest) =
  Re.findall_from its 0 rest.
Proof. induction pre as [|c pre IH]; simpl; [reflexivity | exact IH]. Qed.

(** Where the pattern matches, [extract_imports] keeps the group and goes
    on with the text after the match. *)
Lemma extract_imports_match (s g rest : string) :
  Re.rmatch import_re false "" s = Some (g, rest) ->
  extract_imports s = g :: extract_imports rest.
Proof.
  intros H. unfold extract_imports, Re.findall.
  destruct s as [|c s].
  - discriminate.
  - cbn [Re.findall_from]. rewrite H. f_equal.
    assert (Hs : exists pre, s = (pre ++ rest)%string).
    { unfold import_re in H. now apply rmatch_one_suffix in H. }
    destruct Hs as [pre ->].
    replace (String.length (String c (pre ++ rest)) - String.length rest - 1)
      with (String.length pre).
    + apply findall_from_skip.
    + cbn [String.length]. rewrite length_append. lia.
Qed.

(** Elsewhere it moves one character on. *)
Lemma extract_imports_skip (c : ascii) (s : string) :
  Re.rmatch import_re false "" (String c s) = None ->
  extract_imports (String c s) = extract_imports s.
Proof.
  intros H. unfold extract_imports, Re.findall.
  cbn [Re.findall_from]. now rewrite H.
Qed.

Example extract_one_per_line :
  extract_imports "import a from 'x'
import b from  'y'
import c from 'x'" = ["x"; "y"; "x"].
Proof. reflexivity. Qed.

Example extract_needs_space : extract_imports "from'q' fromm 'z'" = [].
Proof. reflexivity. Qed.

(* ===================================================================== *)
(** ** Examples *)
(* ===================================================================== *)

Example join_plain : Py.join "/app/src" "lib/util" = "/app/src/lib/util".
Proof. reflexivity. Qed.

Example join_trailing : Py.join "/app/src/" "lib/util" = "/app/src/lib/util".
Proof. reflexivity. Qed.

Example join_absolute : Py.join "/app/src" "/etc/x" = "/etc/x".
Proof. reflexivity. Qed.

Example dirname_file : Py.dirname "/app/src/a.ts" = "/app/src".
Proof. reflexivity. Qed.

Example dirname_root : Py.dirname "/a.ts" = "/".
Proof. reflexivity. Qed.

Example dirname_bare : Py.dirname "a.ts" = "".
Proof. reflexivity. Qed.

Example dirname_slashes : Py.dirname "a//b" = "a".
Proof. reflexivity. Qed.

Example endswith_ts :
  Py.endswith "a.ts" ".ts" = true /\ Py.endswith "ts" ".ts" = false.
Proof. split; reflexivity. Qed.

Example split_sep_ex : Py.split_sep "/a//b/" = [""; "a"; ""; "b"; ""].
Proof. reflexivity. Qed.

(** What follows [@/] may be absolute; [join] then drops the root. *)
Example alias_absolute_rest :
  base_path "/app/src" "/app/src/a.ts" "@//etc/x" = "/etc/x".
Proof. reflexivity. Qed.

Example stat_dots :
  stat sample_fs "/app/src/../shared/./widget//index.tsx" = Some (File (Some "")) /\
  stat sample_fs "/app/src/a.ts/" = None /\
  stat sample_fs "/app/src/a.ts/.." = None /\
  stat sample_fs "/../app" = stat sample_fs "/app".
Proof. repeat split; reflexivity. Qed.

Example sample_wf : wf_fs sample_fs = true.
Proof. reflexivity. Qed.

(** The run on the sample tree: [./missing] in [a.ts] and [@/nope] in
    [lib/util.ts] are missing; [bad.ts] does not decode and [notes.txt] is
    no source file. *)
Example sample_run :
  fst (run sample_fs "/app/src") = Ok tt /\
  w_stdout (snd (run sample_fs "/app/src")) =
    ["Missing import in /app/src/a.ts: ./missing";
     "Missing import in /app/src/lib/util.ts: @/nope"].
Proof. split; reflexivity. Qed.

Example sample_run_clean :
  w_stdout (snd (run sample_fs "/app/shared")) = ["No missing imports found."].
Proof. reflexivity. Qed.

(** Opening a file for writing, as the patch scripts of the repository do,
    does change the tree. *)
Example open_for_writing_changes_tree :
  w_fs (snd (open_ "/app/src/b.ts" ModeW (initial sample_fs))) = sample_fs /\
  w_fs (snd (open_ "/app/src/a.ts" ModeW (initial sample_fs))) <> sample_fs /\
  stat (w_fs (snd (open_ "/app/src/new.ts" ModeW (initial sample_fs))))
       "/app/src/new.ts" = Some (File (Some "")).
Proof.
  split; [reflexivity|]. split; [|reflexivity].
  vm_compute. discriminate.
Qed.

(* ===================================================================== *)
(** ** The properties at concrete inputs *)
(* ===================================================================== *)

Lemma C1_candidates_in_order_witness :
  form_of "./missing" <> Bare /\
  fst (check_import "/app/src" "/app/src/a.ts" "./missing" 0 (initial sample_fs))
  = Ok 1.
Proof.
  assert (H : form_of "./missing" <> Bare) by (vm_compute; discriminate).
  split; [exact H|].
  destruct (C1_candidates_in_order "/app/src" "/app/src/a.ts" "./missing" 0
              (initial sample_fs) H)
    as (d & n & _ & _ & _ & _ & _ & Hr & _).
  exact Hr.
Defined.

Lemma C2_same_rule_for_both_forms_witness :
  form_of "@/./lib/util" = Alias /\
  form_of "./lib/util" = Relative /\
  Py.join "/app/src" (Py.drop 2 "@/./lib/util") =
    Py.join (Py.dirname "/app/src/a.ts") "./lib/util" /\
  fst (check_import "/app/src" "/app/src/lib/util.ts" "@/./lib/util" 0
         (initial sample_fs)) =
  fst (check_import "/app/src" "/app/src/a.ts" "./lib/util" 0
         (initial sample_fs)).
Proof.
  split; [reflexivity|]. split; [reflexivity|]. split; [reflexivity|].
  destruct (C2_same_rule_for_both_forms "/app/src" "/app/src/lib/util.ts"
              "/app/src/a.ts" "@/./lib/util" "./lib/util" 0
              (initial sample_fs) eq_refl eq_refl)
    as (_ & _ & H).
  apply H. reflexivity.
Defined.

Lemma C3_alias_relative_to_root_witness :
  Py.startswith "@/lib/util" "@/" = true /\
  w_calls (snd (check_import "/app/src" "/app/src/lib/util.ts" "@/lib/util" 0
                  (initial sample_fs))) =
  [CExists "/app/src/lib/util.ts"].
Proof.
  split; [reflexivity|].
  destruct (C3_alias_relative_to_root "/app/src" "@/lib/util" eq_refl
              "/app/src/lib/util.ts" "/app/src/a.ts" 0 (initial sample_fs))
    as (H & _).
  exact H.
Defined.

Lemma C4_relative_to_importing_file_witness :
  Py.startswith "../shared/widget" "." = true /\
  check_import "/elsewhere" "/app/src/a.ts" "../shared/widget" 0
    (initial sample_fs) =
  check_import "/app/src" "/app/src/a.ts" "../shared/widget" 0
    (initial sample_fs).
Proof.
  split; [reflexivity|].
  destruct (C4_relative_to_importing_file "/app/src/a.ts" "../shared/widget"
              eq_refl "/app/src" "/elsewhere" 0 (initial sample_fs))
    as (_ & _ & _ & H).
  exact H.
Defined.

Lemma C5_bare_not_checked_witness :
  Py.startswith "react" "." = false /\
  Py.startswith "react" "@/" = false /\
  check_import "/app/src" "/app/src/a.ts" "react" 0 (initial sample_fs) =
  (Ok 0, initial sample_fs).
Proof.
  split; [reflexivity|]. split; [reflexivity|].
  apply (C5_bare_not_checked "/app/src" "/app/src/a.ts" "react" 0
           (initial sample_fs)); reflexivity.
Defined.

Lemma C7_output_contract_witness :
  wf_fs sample_fs = true /\
  fst (scan "/app/src" (initial sample_fs)) = Ok 2 /\
  ~ In "No missing imports found." (w_stdout (snd (run sample_fs "/app/src"))).
Proof.
  assert (Hw : wf_fs sample_fs = true) by reflexivity.
  split; [exact Hw|].
  destruct (C7_output_contract sample_fs "/app/src" Hw)
    as (Hc & _ & _ & _ & Hi & _).
  split; [exact Hc|].
  intros H. apply Hi in H. vm_compute in H. discriminate.
Defined.

Lemma C8_decode_error_skipped_witness :
  is_source "bad.ts" = true /\
  stat sample_fs (Py.join "/app/src" "bad.ts") = Some (File None) /\
  check_file "/app/src" "/app/src" "bad.ts" 0 (initial sample_fs) =
  (Ok 0, log (COpen "/app/src/bad.ts" ModeR) (initial sample_fs)).
Proof.
  split; [reflexivity|]. split; [reflexivity|].
  destruct (C8_decode_error_skipped "/app/src" "/app/src" "bad.ts" [] 0
              (initial sample_fs) eq_refl eq_refl)
    as (_ & H & _).
  exact H.
Defined.

Lemma C10_fallback_never_taken_witness :
  isdir sample_fs "/app/src/lib" = true /\
  fst (probe "/app/src/lib" suffixes (initial sample_fs)) = Ok true /\
  fst (probe "/app/src/nope" suffixes (initial sample_fs)) = Ok false /\
  fst (index_fallback "/app/src/nope"
         (snd (probe "/app/src/nope" suffixes (initial sample_fs)))) = Ok false.
Proof.
  split; [reflexivity|]. split.
  - destruct (C10_fallback_never_taken "/app/src/lib" (initial sample_fs))
      as (H & _ & _).
    apply H. reflexivity.
  - split; [reflexivity|].
    destruct (C10_fallback_never_taken "/app/src/nope" (initial sample_fs))
      as (_ & H & _).
    rewrite (H eq_refl). reflexivity.
Defined.

(* ===================================================================== *)
(** ** More on the extraction of specifiers *)
(* ===================================================================== *)

Lemma rmatch_one_inv (a : Re.atom) (k : list Re.item) (cap : bool)
    (g s : string) (r : string * string) :
  Re.rmatch (Re.One a :: k) cap g s = Some r ->
  exists c s', s = String c s' /\ Re.atom_matches a c = true /\
               Re.rmatch k cap (Re.push cap g c) s' = Some r.
Proof.
  simpl. destruct s as [|c s']; [discriminate|].
  destruct (Re.atom_matches a c) eqn:E; [|discriminate].
  intros H. now exists c, s'.
Qed.

Lemma more_inv (a : Re.atom)
    (cont : bool -> string -> string -> option (string * string))
    (cap : bool) (r : string * string) :
  forall s g,
    Re.more a cont cap g s = Some r ->
    exists taken rest,
      s = (taken ++ rest)%string /\ all_match a taken = true /\
      cont cap (pushes cap g taken) rest = Some r.
Proof.
  induction s as [|c s IH]; intros g; simpl.
  - intros H. now exists "", "".
  - destruct (Re.atom_matches a c) eqn:E.
    + destruct (Re.more a cont cap (Re.push cap g c) s) as [r'|] eqn:M.
      * intros H; inversion H; subst r'.
        destruct (IH _ M) as (taken & rest & -> & Ht & Hc).
        exists (String c taken), rest. simpl. now rewrite E, Ht.
      * intros H. now exists "", (String c s).
    + intros H. now exists "", (String c s).
Qed.

Lemma rmatch_plus_inv (a : Re.atom) (k : list Re.item) (cap : bool)
    (g s : string) (r : string * string) :
  Re.rmatch (Re.Plus a :: k) cap g s = Some r ->
  exists c taken rest,
    s = String c (taken ++ rest) /\ Re.atom_matches a c = true /\
    all_match a taken = true /\
    Re.rmatch k cap (pushes cap (Re.push cap g c) taken) rest = Some r.
Proof.
  simpl. destruct s as [|c s']; [discriminate|].
  destruct (Re.atom_matches a c) eqn:E; [|discriminate].
  intros H. apply more_inv in H as (taken & rest & -> & Ht & Hc).
  now exists c, taken, rest.
Qed.

Lemma pushes_false (g taken : string) : pushes false g taken = g.
Proof. revert g; induction taken as [|c t IH]; intros g; simpl; auto. Qed.

Lemma pushes_true (g taken : string) : pushes true g taken = (g ++ taken)%string.
Proof.
  revert g; induction taken as [|c t IH]; intros g; simpl.
  - now rewrite append_empty_r.
  - rewrite IH, append_assoc. reflexivity.
Qed.

Lemma chr_matches (x c : ascii) :
  Re.atom_matches (Re.Chr x) c = true -> c = x.
Proof. simpl. intros H. apply Ascii.eqb_eq in H. now subst. Qed.

Lemma all_match_space (s : string) : all_match Re.Space s = all_space s.
Proof. induction s as [|c s IH]; simpl; [reflexivity | now rewrite IH]. Qed.

Lemma all_match_dot (s : string) : all_match Re.Dot s = negb (has_newline s).
Proof.
  induction s as [|c s IH]; simpl; [reflexivity|].
  rewrite IH. now destruct (Ascii.eqb c Re.newline).
Qed.

(** The shape of a text the pattern matches at its start. *)
Lemma import_re_match_shape (s g rest : string) :
  Re.rmatch import_re false "" s = Some (g, rest) ->
  exists ws q1 q2,
    s = ("from" ++ ws ++ String q1 (g ++ String q2 rest))%string /\
    ws <> "" /\ all_space ws = true /\
    is_quote q1 = true /\ is_quote q2 = true /\
    g <> "" /\ has_newline g = false.
Proof.
  unfold import_re. intros H.
  apply rmatch_one_inv in H as (c1 & s1 & -> & M1 & H). apply chr_matches in M1.
  apply rmatch_one_inv in H as (c2 & s2 & -> & M2 & H). apply chr_matches in M2.
  apply rmatch_one_inv in H as (c3 & s3 & -> & M3 & H). apply chr_matches in M3.
  apply rmatch_one_inv in H as (c4 & s4 & -> & M4 & H). apply chr_matches in M4.
  subst c1 c2 c3 c4.
  apply rmatch_plus_inv in H as (w & ws & s5 & -> & Mw & Mws & H).
  rewrite pushes_false in H. cbn [Re.push] in H.
  apply rmatch_one_inv in H as (q1 & s6 & -> & Mq1 & H).
  cbn [Re.rmatch Re.push] in H.
  destruct s6 as [|d s6]; [discriminate|].
  destruct (Re.atom_matches Re.Dot d) eqn:Md; [|discriminate].
  apply more_inv in H as (taken & s7 & -> & Mt & H).
  rewrite pushes_true in H.
  destruct s7 as [|q2 s7]; [discriminate|].
  destruct (Re.atom_matches (Re.OneOf [Re.squote; Re.dquote]) q2) eqn:Mq2;
    [|discriminate].
  inversion H; subst g rest. clear H.
  exists (String w ws), q1, q2. simpl.
  split; [reflexivity|]. split; [discriminate|].
  split; [simpl in Mw; now rewrite Mw, <- all_match_space|].
  split; [exact Mq1|]. split; [exact Mq2|]. split; [discriminate|].
  simpl in Md. apply negb_true_iff in Md. rewrite Md. simpl.
  rewrite all_match_dot in Mt. now apply negb_true_iff in Mt.
Qed.

Lemma findall_from_in (its : list Re.item) (g : string) :
  forall s skip,
    In g (Re.findall_from its skip s) ->
    exists pre s' rest,
      s = (pre ++ s')%string /\ Re.rmatch its false "" s' = Some (g, rest).
Proof.
  induction s as [|c s IH]; intros skip.
  - destruct skip; simpl; [|intros []].
    destruct (Re.rmatch its false "" "") as [[g' rest]|] eqn:E; [|intros []].
    intros [<-|[]]. now exists "", "", rest.
  - destruct skip as [|k]; simpl.
    + destruct (Re.rmatch its false "" (String c s)) as [[g' rest]|] eqn:E.
      * intros [<-|H].
        -- now exists "", (String c s), rest.
        -- destruct (IH _ H) as (pre & s' & r & -> & M).
           now exists (String c pre), s', r.
      * intros H. destruct (IH _ H) as (pre & s' & r & -> & M).
        now exists (String c pre), s', r.
    + intros H. destruct (IH _ H) as (pre & s' & r & -> & M).
      now exists (String c pre), s', r.
Qed.

(** X1. Whatever is extracted stands in the text between two quote
    characters that follow [from] and white space; it is not empty and holds
    no newline. *)
Theorem X1_extracted_specifier_occurs (content g : string) :
  In g (extract_imports content) ->
  exists pre ws q1 q2 post,
    content = (pre ++ "from" ++ ws ++ String q1 (g ++ String q2 post))%string /\
    ws <> "" /\ all_space ws = true /\
    is_quote q1 = true /\ is_quote q2 = true /\
    g <> "" /\ has_newline g = false.
Proof.
  intros H. apply findall_from_in in H as (pre & s' & rest & -> & M).
  apply import_re_match_shape in M as (ws & q1 & q2 & -> & Hrest).
  now exists pre, ws, q1, q2, rest.
Qed.

(** The end of the pattern, after the group's [.+]. *)
Lemma quote_not_newline (c : ascii) :
  is_quote c = true -> Ascii.eqb c Re.newline = false.
Proof.
  unfold is_quote. simpl. intros H.
  apply orb_true_iff in H as [H|H].
  - apply Ascii.eqb_eq in H. now subst.
  - apply orb_true_iff in H as [H|H]; [|discriminate].
    apply Ascii.eqb_eq in H. now subst.
Qed.

Lemma quote_not_space (c : ascii) :
  is_quote c = true -> Re.is_space c = false.
Proof.
  unfold is_quote. simpl. intros H.
  apply orb_true_iff in H as [H|H].
  - apply Ascii.eqb_eq in H. now subst.
  - apply orb_true_iff in H as [H|H]; [|discriminate].
    apply Ascii.eqb_eq in H. now subst.
Qed.

Lemma close_at (cap : bool) (g : string) (c : ascii) (s : string) :
  Re.rmatch [Re.GroupClose; Re.One (Re.OneOf [Re.squote; Re.dquote])] cap g
            (String c s) =
  if is_quote c then Some (g, s) else None.
Proof. reflexivity. Qed.

Lemma close_at_end (cap : bool) (g : string) :
  Re.rmatch [Re.GroupClose; Re.One (Re.OneOf [Re.squote; Re.dquote])] cap g "" =
  None.
Proof. reflexivity. Qed.

Lemma rmatch_one_step (a : Re.atom) (k : list Re.item) (cap : bool)
    (g : string) (c : ascii) (s : string) :
  Re.atom_matches a c = true ->
  Re.rmatch (Re.One a :: k) cap g (String c s) =
  Re.rmatch k cap (Re.push cap g c) s.
Proof. simpl. now intros ->. Qed.

Lemma rmatch_plus_step (a : Re.atom) (k : list Re.item) (cap : bool)
    (g : string) (c : ascii) (s : string) :
  Re.atom_matches a c = true ->
  Re.rmatch (Re.Plus a :: k) cap g (String c s) =
  Re.more a (Re.rmatch k) cap (Re.push cap g c) s.
Proof. simpl. now intros ->. Qed.

Lemma rmatch_open_step (k : list Re.item) (cap : bool) (g s : string) :
  Re.rmatch (Re.GroupOpen :: k) cap g s = Re.rmatch k true "" s.
Proof. reflexivity. Qed.

#[local] Opaque Re.rmatch.

(** The greedy [.+] fails exactly when no quote is left on the line. *)
Lemma more_dot_none (s : string) :
  forall cap g,
    Re.more Re.Dot
      (Re.rmatch [Re.GroupClose; Re.One (Re.OneOf [Re.squote; Re.dquote])])
      cap g s = None <->
    quote_on_first_line s = false.
Proof.
  induction s as [|c s IH]; intros cap g; simpl.
  - rewrite close_at_end. tauto.
  - rewrite close_at.
    destruct (Ascii.eqb c Re.newline) eqn:N; simpl.
    + destruct (is_quote c) eqn:Q; [|tauto].
      apply quote_not_newline in Q. congruence.
    + destruct (Re.more Re.Dot _ cap (Re.push cap g c) s) as [r|] eqn:M.
      * split; [discriminate|]. intros H.
        apply orb_false_iff in H as [_ H]. apply (IH cap (Re.push cap g c)) in H.
        congruence.
      * apply IH in M. rewrite M, orb_false_r.
        destruct (is_quote c); split; congruence.
Qed.

(** When it succeeds, it stopped at the last quote of the line. *)
Lemma more_dot_rest (s : string) :
  forall cap g g' rest,
    Re.more Re.Dot
      (Re.rmatch [Re.GroupClose; Re.One (Re.OneOf [Re.squote; Re.dquote])])
      cap g s = Some (g', rest) ->
    quote_on_first_line rest = false.
Proof.
  induction s as [|c s IH]; intros cap g g' rest; simpl.
  - rewrite close_at_end. discriminate.
  - rewrite close_at.
    destruct (negb (Ascii.eqb c Re.newline)) eqn:N.
    + destruct (Re.more Re.Dot _ cap (Re.push cap g c) s) as [r|] eqn:M.
      * intros H; inversion H; subst r. eapply IH; eassumption.
      * destruct (is_quote c); [|discriminate].
        intros H; inversion H; subst. now apply more_dot_none in M.
    + destruct (is_quote c) eqn:Q; [|discriminate].
      apply quote_not_newline in Q. rewrite Q in N. discriminate.
Qed.

Lemma more_dot_last (spec : string) :
  forall g (q2 : ascii) (tail : string),
    has_newline spec = false -> is_quote q2 = true ->
    quote_on_first_line tail = false ->
    Re.more Re.Dot
      (Re.rmatch [Re.GroupClose; Re.One (Re.OneOf [Re.squote; Re.dquote])])
      true g (spec ++ String q2 tail) = Some ((g ++ spec)%string, tail).
Proof.
  induction spec as [|c spec IH]; intros g q2 tail Hn Hq Ht.
  - cbn [append Re.more Re.atom_matches]. rewrite (quote_not_newline _ Hq).
    cbn [negb]. rewrite (proj2 (more_dot_none tail true _) Ht).
    now rewrite close_at, Hq, append_empty_r.
  - simpl in Hn. apply orb_false_iff in Hn as [Hc Hn].
    cbn [append Re.more Re.atom_matches]. rewrite Hc. cbn [negb].
    rewrite (IH _ q2 tail Hn Hq Ht). unfold Re.push.
    now rewrite append_assoc.
Qed.

Lemma more_take_all (a : Re.atom)
    (cont : bool -> string -> string -> option (string * string))
    (cap : bool) (r : string * string) (c : ascii) (rest : string) :
  Re.atom_matches a c = false ->
  forall taken g,
    all_match a taken = true ->
    cont cap (pushes cap g taken) (String c rest) = Some r ->
    Re.more a cont cap g (taken ++ String c rest) = Some r.
Proof.
  intros Hc. induction taken as [|x t IH]; intros g Ht Hk; simpl in *.
  - now rewrite Hc.
  - apply andb_true_iff in Ht as [Hx Ht]. rewrite Hx.
    now rewrite (IH _ Ht Hk).
Qed.

Lemma import_re_match_rest (s g rest : string) :
  Re.rmatch import_re false "" s = Some (g, rest) ->
  quote_on_first_line rest = false.
Proof.
  unfold import_re. intros H.
  do 4 (apply rmatch_one_inv in H as (? & ? & -> & _ & H)).
  apply rmatch_plus_inv in H as (w & ws & s5 & -> & _ & _ & H).
  apply rmatch_one_inv in H as (q1 & s6 & -> & _ & H).
  rewrite rmatch_open_step in H.
  destruct s6 as [|d s6].
  - apply rmatch_plus_inv in H as (? & ? & ? & E & _). discriminate.
  - destruct (Re.atom_matches Re.Dot d) eqn:Md.
    + rewrite (rmatch_plus_step _ _ _ _ _ _ Md) in H.
      now apply more_dot_rest in H.
    + apply rmatch_plus_inv in H as (? & ? & ? & E & M & _).
      inversion E; subst. congruence.
Qed.

(** A clause [from], white space, a quoted text: what the pattern takes
    from it. *)
Lemma import_re_match_clause (ws spec tail : string) (q1 q2 : ascii) :
  ws <> "" -> all_space ws = true ->
  is_quote q1 = true -> is_quote q2 = true ->
  spec <> "" -> has_newline spec = false ->
  quote_on_first_line tail = false ->
  Re.rmatch import_re false ""
    ("from" ++ ws ++ String q1 (spec ++ String q2 tail)) = Some (spec, tail).
Proof.
  intros Hws Hsp Hq1 Hq2 Hspec Hn Ht.
  destruct ws as [|w ws]; [now elim Hws|].
  destruct spec as [|d spec]; [now elim Hspec|].
  simpl in Hsp. apply andb_true_iff in Hsp as [Hw Hsp].
  simpl in Hn. apply orb_false_iff in Hn as [Hd Hn].
  unfold import_re. cbn [append].
  do 4 (rewrite rmatch_one_step; [|apply Ascii.eqb_refl]).
  rewrite rmatch_plus_step; [|exact Hw].
  apply more_take_all.
  - simpl. now apply quote_not_space.
  - now rewrite all_match_space.
  - rewrite pushes_false.
    rewrite rmatch_one_step; [|exact Hq1].
    rewrite rmatch_open_step.
    rewrite rmatch_plus_step; [|simpl; now rewrite Hd].
    now rewrite (more_dot_last spec _ q2 tail Hn Hq2 Ht).
Qed.

#[local] Transparent Re.rmatch.

Lemma quoted_lines_mono (s : string) :
  forall seen, quoted_lines false s <= quoted_lines seen s.
Proof.
  induction s as [|c s IH]; intros seen; simpl.
  - destruct seen; lia.
  - destruct (Ascii.eqb c Re.newline).
    + destruct seen; lia.
    + destruct (is_quote c); [now rewrite orb_true_r | rewrite orb_false_r; apply IH].
Qed.

Lemma quoted_lines_le_seen (s : string) :
  forall seen, quoted_lines seen s <= quoted_lines true s.
Proof.
  induction s as [|c s IH]; intros seen; simpl.
  - destruct seen; lia.
  - destruct (Ascii.eqb c Re.newline).
    + destruct seen; lia.
    + apply IH.
Qed.

Lemma quoted_lines_prefix (pre s : string) :
  forall seen, quoted_lines false s <= quoted_lines seen (pre ++ s).
Proof.
  induction pre as [|c pre IH]; intros seen; simpl.
  - apply quoted_lines_mono.
  - destruct (Ascii.eqb c Re.newline).
    + specialize (IH false). lia.
    + apply IH.
Qed.

Lemma quoted_lines_after_quote (s : string) :
  quote_on_first_line s = false ->
  quoted_lines true s = 1 + quoted_lines false s.
Proof.
  induction s as [|c s IH]; simpl; [reflexivity|].
  destruct (Ascii.eqb c Re.newline); [reflexivity|].
  intros H. apply orb_false_iff in H as [Hq Hs]. rewrite Hq. now apply IH.
Qed.

Lemma quoted_lines_same_line (a s : string) :
  has_newline a = false ->
  quoted_lines true (a ++ s) = quoted_lines true s.
Proof.
  induction a as [|c a IH]; simpl; intros Hn; [reflexivity|].
  apply orb_false_iff in Hn as [Hc Hn]. rewrite Hc. now apply IH.
Qed.

(** A match uses up a line that holds a quote. *)
Lemma quoted_lines_match (s g rest : string) :
  Re.rmatch import_re false "" s = Some (g, rest) ->
  1 + quoted_lines false rest <= quoted_lines false s /\
  String.length rest < String.length s.
Proof.
  intros H. pose proof (import_re_match_rest _ _ _ H) as Hr.
  apply import_re_match_shape in H
    as (ws & q1 & q2 & -> & _ & _ & Hq1 & _ & _ & Hg).
  split.
  - rewrite <- (quoted_lines_after_quote _ Hr).
    etransitivity;
      [|apply (quoted_lines_prefix ("from" ++ ws)
                 (String q1 (g ++ String q2 rest)) false)].
    cbn [quoted_lines]. rewrite (quote_not_newline _ Hq1), Hq1. cbn [orb].
    rewrite (quoted_lines_same_line g _ Hg).
    cbn [quoted_lines].
    destruct (Ascii.eqb q2 Re.newline); [|reflexivity].
    rewrite (quoted_lines_after_quote _ Hr). lia.
  - rewrite !length_append. simpl. rewrite !length_append. simpl. lia.
Qed.

Lemma extract_imports_bound (n : nat) :
  forall s, String.length s <= n ->
    List.length (extract_imports s) <= quoted_lines false s.
Proof.
  induction n as [|n IH]; intros s Hs.
  - destruct s; [|simpl in Hs; lia]. apply le_n.
  - destruct s as [|c s]; [apply le_n|].
    destruct (Re.rmatch import_re false "" (String c s)) as [[g rest]|] eqn:M.
    + rewrite (extract_imports_match _ _ _ M).
      destruct (quoted_lines_match _ _ _ M) as [Hq Hl].
      assert (Hr : String.length rest <= n) by (simpl in Hs, Hl; lia).
      specialize (IH rest Hr). cbn [List.length]. lia.
    + rewrite (extract_imports_skip _ _ M).
      assert (Hr : String.length s <= n) by (simpl in Hs; lia).
      specialize (IH s Hr).
      pose proof (quoted_lines_prefix (String c "") s false) as Hp.
      cbn [append] in Hp. lia.
Qed.

Lemma quoted_lines_le_lines (s : string) (seen : bool) :
  quoted_lines seen s <= 1 + count_newlines s.
Proof.
  revert seen; induction s as [|c s IH]; intros seen; simpl.
  - destruct seen; lia.
  - destruct (Ascii.eqb c Re.newline).
    + specialize (IH false). destruct seen; lia.
    + apply IH.
Qed.

(** X2. A line yields at most one specifier: no more specifiers are
    extracted than the text has lines that hold a quote, and so no more
    than it has lines. *)
Theorem X2_at_most_one_specifier_per_line (content : string) :
  List.length (extract_imports content) <= quoted_lines false content /\
  quoted_lines false content <= 1 + count_newlines content.
Proof.
  split.
  - now apply (extract_imports_bound (String.length content)).
  - apply quoted_lines_le_lines.
Qed.

(** X3. A clause [from], white space, an opening quote, a text [spec]
    without newline, a closing quote, with no further quote up to the end of
    the line, yields [spec], and extraction goes on after the closing quote.
    [spec] itself may hold quotes: the group runs to the last quote of the
    line. *)
Theorem X3_clause_yields_its_specifier (ws spec tail : string) (q1 q2 : ascii) :
  ws <> "" -> all_space ws = true ->
  is_quote q1 = true -> is_quote q2 = true ->
  spec <> "" -> has_newline spec = false ->
  quote_on_first_line tail = false ->
  extract_imports ("from" ++ ws ++ String q1 (spec ++ String q2 tail)) =
  spec :: extract_imports tail.
Proof.
  intros. apply extract_imports_match.
  now apply import_re_match_clause.
Qed.

Lemma X3_clause_yields_its_specifier_witness :
  extract_imports "from 'x'; import b from 'y';
import c from './c'" =
  "x'; import b from 'y" :: extract_imports ";
import c from './c'".
Proof.
  apply (X3_clause_yields_its_specifier " " "x'; import b from 'y"
           ";
import c from './c'" "'" "'");
    first [discriminate | reflexivity].
Defined.

(* ===================================================================== *)
(** ** More on paths *)
(* ===================================================================== *)

Lemma head_to_last_sep_plain (s : string) :
  has_sep s = false -> Py.head_to_last_sep s = "".
Proof.
  induction s as [|c s IH]; simpl; [reflexivity|].
  intros H. apply orb_false_iff in H as [Hc Hs]. now rewrite Hc, (IH Hs).
Qed.

Lemma head_to_last_sep_app (a b : string) :
  Py.head_to_last_sep (a ++ String Py.sep b) =
  (a ++ String Py.sep (Py.head_to_last_sep b))%string.
Proof.
  induction a as [|c a IH]; simpl.
  - reflexivity.
  - rewrite IH. destruct (Py.is_sep c); [reflexivity|].
    now destruct a.
Qed.

Lemma all_sep_app (a b : string) :
  Py.all_sep (a ++ b) = Py.all_sep a && Py.all_sep b.
Proof.
  induction a as [|c a IH]; simpl; [reflexivity|].
  now rewrite IH, andb_assoc.
Qed.

Lemma rstrip_sep_empty (s : string) :
  Py.rstrip_sep s = "" <-> Py.all_sep s = true.
Proof.
  induction s as [|c s IH]; simpl; [tauto|].
  destruct (Py.rstrip_sep s) eqn:E.
  - destruct (Py.is_sep c); simpl.
    + split; [intros _; now apply IH | reflexivity].
    + split; discriminate.
  - split; [discriminate|]. intros H.
    apply andb_true_iff in H as [_ H]. apply IH in H. discriminate.
Qed.

Lemma rstrip_sep_app_sep (s : string) :
  Py.rstrip_sep (s ++ "/") = Py.rstrip_sep s.
Proof.
  induction s as [|c s IH]; simpl; [reflexivity|]. now rewrite IH.
Qed.

Lemma drop_length_app (a b : string) : Py.drop (String.length a) (a ++ b) = b.
Proof. induction a as [|c a IH]; simpl; [reflexivity | exact IH]. Qed.

Lemma endswith_app (a b : string) : Py.endswith (a ++ b) b = true.
Proof.
  unfold Py.endswith. rewrite length_append.
  replace (String.length a + String.length b - String.length b)
    with (String.length a) by lia.
  rewrite drop_length_app, String.eqb_refl, andb_true_r.
  apply Nat.leb_le. lia.
Qed.

Lemma endswith_sep_iff (s : string) :
  Py.endswith s "/" = true <-> exists pre, s = (pre ++ "/")%string.
Proof.
  split; [apply endswith_split|]. intros [pre ->]. apply endswith_app.
Qed.

Lemma rstrip_sep_fixed (s : string) :
  Py.endswith s "/" = false -> Py.rstrip_sep s = s.
Proof.
  induction s as [|c s IH]; [reflexivity|].
  intros H. simpl.
  destruct s as [|d s].
  - simpl. destruct (Py.is_sep c) eqn:E; [|reflexivity].
    apply Ascii.eqb_eq in E. subst c. discriminate.
  - assert (Hs : Py.endswith (String d s) "/" = false).
    { destruct (Py.endswith (String d s) "/") eqn:F; [|reflexivity].
      apply endswith_sep_iff in F as [pre F].
      assert (G : Py.endswith (String c (String d s)) "/" = true).
      { apply endswith_sep_iff. exists (String c pre). simpl. now rewrite F. }
      congruence. }
    rewrite (IH Hs). reflexivity.
Qed.

Lemma all_sep_endswith (s : string) :
  s <> "" -> Py.all_sep s = true -> Py.endswith s "/" = true.
Proof.
  induction s as [|c s IH]; [tauto|]. intros _ H.
  simpl in H. apply andb_true_iff in H as [Hc Hs].
  apply Ascii.eqb_eq in Hc. unfold Py.sep in Hc. subst c.
  destruct s as [|d s]; [reflexivity|].
  apply endswith_sep_iff.
  destruct (proj1 (endswith_sep_iff _) (IH ltac:(discriminate) Hs)) as [pre E].
  exists (String "/" pre). simpl. now rewrite E.
Qed.

(** X4. The directory recovered from the path of a walked file is the
    directory of the walk, up to trailing separators: for a file name
    without separator, [dirname(join(subdir, file))] is [subdir] with its
    trailing separators removed (and [subdir] itself when it consists of
    separators only); it is [subdir] when [subdir] does not end with a
    separator. *)
Theorem X4_dirname_of_join (subdir file : string) :
  file <> "" -> has_sep file = false ->
  Py.dirname (Py.join subdir file) =
    (if Py.all_sep subdir then subdir else Py.rstrip_sep subdir) /\
  (Py.endswith subdir "/" = false ->
   Py.dirname (Py.join subdir file) = subdir).
Proof.
  intros Hf Hs.
  assert (Ha : Py.startswith file "/" = false).
  { destruct file as [|c file]; [now elim Hf|]. simpl in *.
    apply orb_false_iff in Hs as [Hc _]. unfold Py.is_sep, Py.sep in Hc.
    rewrite Ascii.eqb_sym in Hc. now rewrite Hc. }
  assert (Main : Py.dirname (Py.join subdir file) =
                 (if Py.all_sep subdir then subdir else Py.rstrip_sep subdir)).
  { unfold Py.join. rewrite Ha.
    destruct (String.eqb subdir "") eqn:E; simpl.
    - apply String.eqb_eq in E. subst subdir. simpl.
      unfold Py.dirname. now rewrite (head_to_last_sep_plain _ Hs).
    - apply String.eqb_neq in E.
      destruct (Py.endswith subdir "/") eqn:F.
      + destruct (endswith_split _ _ F) as [pre ->].
        rewrite append_assoc. change ("/" ++ file)%string with (String Py.sep file).
        unfold Py.dirname.
        rewrite head_to_last_sep_app, (head_to_last_sep_plain _ Hs).
        change (pre ++ String Py.sep "")%string with (pre ++ "/")%string.
        destruct (Py.all_sep (pre ++ "/")) eqn:A.
        * now rewrite andb_false_r.
        * rewrite andb_true_r.
          assert (N : String.eqb (pre ++ "/") "" = false)
            by (apply String.eqb_neq; now destruct pre).
          now rewrite N.
      + change ("/" ++ file)%string with (String Py.sep file).
        unfold Py.dirname.
        rewrite head_to_last_sep_app, (head_to_last_sep_plain _ Hs).
        change (subdir ++ String Py.sep "")%string with (subdir ++ "/")%string.
        assert (A : Py.all_sep subdir = false).
        { destruct (Py.all_sep subdir) eqn:A; [|reflexivity].
          rewrite (all_sep_endswith _ E A) in F. discriminate. }
        rewrite all_sep_app, A. simpl.
        assert (N : String.eqb (subdir ++ "/") "" = false)
          by (apply String.eqb_neq; now destruct subdir).
        rewrite N. simpl. apply rstrip_sep_app_sep. }
  split; [exact Main|].
  intros F. rewrite Main.
  destruct (Py.all_sep subdir) eqn:A; [reflexivity|].
  now apply rstrip_sep_fixed.
Qed.

Lemma X4_dirname_of_join_witness :
  Py.dirname (Py.join "/app/src" "a.ts") = "/app/src" /\
  Py.dirname (Py.join "/app/src//" "a.ts") = "/app/src".
Proof.
  split.
  - apply (X4_dirname_of_join "/app/src" "a.ts"); first [discriminate | reflexivity].
  - apply (proj1 (X4_dirname_of_join "/app/src//" "a.ts"
                    ltac:(discriminate) eq_refl)).
Defined.

(* ===================================================================== *)
(** ** More on a whole run *)
(* ===================================================================== *)




(** X12. A second run right after the first repeats it: on a well-formed
    tree, two runs in a row end normally and print the output of one run
    twice, making the same calls twice. *)
Theorem X12_second_run_repeats (fs : filesystem) (root_dir : string) :
  wf_fs fs = true ->
  (check_imports root_dir ;; check_imports root_dir)%prog (initial fs) =
  (Ok tt,
   mkWorld fs
     (w_stdout (snd (run fs root_dir)) ++ w_stdout (snd (run fs root_dir)))
     (w_calls (snd (run fs root_dir)) ++ w_calls (snd (run fs root_dir)))).
Proof.
  intros Hwf. unfold run.
  pose proof (runs_check_imports fs root_dir (initial fs) Hwf eq_refl) as H1.
  unfold runs_to in H1. unfold bind. rewrite H1.
  rewrite (runs_check_imports fs root_dir
             (extends (initial fs) (expected_output fs root_dir)
                      (run_calls fs root_dir)) Hwf eq_refl).
  reflexivity.
Qed.

Lemma X12_second_run_repeats_witness :
  wf_fs sample_fs = true /\
  w_stdout (snd ((check_imports "/app/src" ;; check_imports "/app/src")%prog
                   (initial sample_fs))) =
  ["Missing import in /app/src/a.ts: ./missing";
   "Missing import in /app/src/lib/util.ts: @/nope";
   "Missing import in /app/src/a.ts: ./missing";
   "Missing import in /app/src/lib/util.ts: @/nope"].
Proof.
  split; [reflexivity|].
  rewrite (X12_second_run_repeats sample_fs "/app/src" eq_refl).
  reflexivity.
Defined.

Lemma filter_flat_map {A B : Type} (P : B -> bool) (f : A -> list B)
    (l : list A) :
  filter P (flat_map f l) = flat_map (fun x => filter P (f x)) l.
Proof.
  induction l as [|x l IH]; simpl; [reflexivity|].
  now rewrite filter_app, IH.
Qed.

Lemma import_calls_no_open (fs : filesystem) (root_dir filepath imp : string) :
  filter is_open_call (import_calls fs root_dir filepath imp) = [].
Proof.
  unfold import_calls.
  assert (H : forall l, filter is_open_call (map CExists l) = []).
  { induction l as [|x l IH]; simpl; auto. }
  destruct (form_of imp); [|apply H|reflexivity].
  rewrite filter_app, H. now destruct (any_exists _ _).
Qed.

Lemma path_calls_open (fs : filesystem) (root_dir filepath : string) :
  filter is_open_call (path_calls fs root_dir filepath) = [COpen filepath ModeR].
Proof.
  unfold path_calls. simpl. f_equal.
  rewrite filter_flat_map.
  induction (file_imports fs filepath) as [|imp l IH]; simpl; [reflexivity|].
  now rewrite import_calls_no_open.
Qed.

Lemma map_flat_map {A B C : Type} (g : B -> C) (f : A -> list B) (l : list A) :
  map g (flat_map f l) = flat_map (fun x => map g (f x)) l.
Proof.
  induction l as [|x l IH]; simpl; [reflexivity|]. now rewrite map_app, IH.
Qed.

Lemma run_calls_open (fs : filesystem) (root_dir : string) :
  filter is_open_call (run_calls fs root_dir) =
  map (fun p => COpen p ModeR) (source_files fs root_dir).
Proof.
  unfold run_calls, source_files. simpl.
  rewrite filter_flat_map, map_flat_map.
  apply flat_map_ext_in. intros [[subdir dirs] files] _.
  unfold dir_calls, file_calls. cbn [fst snd].
  rewrite filter_flat_map.
  induction files as [|f files IH]; cbn [flat_map filter map]; [reflexivity|].
  destruct (is_source f); cbn [map app filter].
  - now rewrite path_calls_open, IH.
  - exact IH.
Qed.

(** X5. On a well-formed tree the files a run opens are the files of the
    walk whose name ends in [.tsx] or [.ts], each once, in the order of the
    walk, and each for reading. *)
Theorem X5_opens_the_source_files (fs : filesystem) (root_dir : string) :
  wf_fs fs = true ->
  filter is_open_call (w_calls (snd (run fs root_dir))) =
  map (fun p => COpen p ModeR) (source_files fs root_dir).
Proof.
  intros Hwf. unfold run.
  rewrite (runs_check_imports fs root_dir (initial fs) Hwf eq_refl).
  simpl. apply run_calls_open.
Qed.

Lemma X5_opens_the_source_files_witness :
  wf_fs sample_fs = true /\
  filter is_open_call (w_calls (snd (run sample_fs "/app/src"))) =
  [COpen "/app/src/a.ts" ModeR; COpen "/app/src/b.ts" ModeR;
   COpen "/app/src/bad.ts" ModeR; COpen "/app/src/lib/util.ts" ModeR].
Proof.
  split; [reflexivity|].
  rewrite (X5_opens_the_source_files sample_fs "/app/src" eq_refl).
  reflexivity.
Defined.

Lemma join_rel (top rel : string) :
  Py.startswith rel "/" = false ->
  Py.join top rel = (top ++ rel)%string /\
    (top = "" \/ exists pre, top = (pre ++ "/")%string)
  \/ Py.join top rel = (top ++ String Py.sep rel)%string /\ top <> "".
Proof.
  intros Ha. unfold Py.join. rewrite Ha.
  destruct (String.eqb top "") eqn:E; simpl.
  - left. split; [reflexivity|]. left. now apply String.eqb_eq.
  - destruct (Py.endswith top "/") eqn:F.
    + left. split; [reflexivity|]. right. now apply endswith_split.
    + right. split; [reflexivity|]. now apply String.eqb_neq.
Qed.

Lemma join_extends (top rel : string) :
  Py.startswith rel "/" = false ->
  exists x, Py.join top rel = (top ++ x ++ rel)%string.
Proof.
  intros Ha. destruct (join_rel top rel Ha) as [[-> _]|[-> _]].
  - now exists "".
  - now exists "/".
Qed.

Lemma walk_node_under (n : node) :
  forall top subdir dirs files,
    wf_node n = true ->
    In (subdir, dirs, files) (walk_node top n) ->
    (exists x, subdir = (top ++ x)%string) /\
    (forall f, In f files -> valid_name f = true).
Proof.
  induction n as [t|es IH] using node_induction;
    intros top subdir dirs files Hw Hin.
  - destruct Hin.
  - rewrite walk_node_dir in Hin. destruct Hin as [E|Hin].
    + inversion E; subst. split.
      * exists "". now rewrite append_empty_r.
      * intros f Hf. apply filenames_in in Hf as [t Ht].
        now destruct (wf_entry _ _ _ Hw Ht).
    + apply in_flat_map in Hin as [[name c] [Hc Hin]]. simpl in Hin.
      destruct (wf_entry _ _ _ Hw Hc) as (Hv & Hwc & _).
      rewrite Forall_forall in IH.
      destruct (IH _ Hc _ _ _ _ Hwc Hin) as [[x ->] Hf].
      split; [|exact Hf].
      destruct (join_extends top name (valid_name_not_abs _ Hv)) as [y ->].
      exists (y ++ name ++ x)%string. now rewrite !append_assoc.
Qed.

Lemma stat_wf (fs : filesystem) (p : string) (n : node) :
  wf_fs fs = true -> stat fs p = Some n -> wf_node n = true.
Proof.
  unfold stat. intros Hw.
  destruct (resolve fs p) as [[|[k m] up]|] eqn:E; try discriminate.
  intros H; inversion H; subst.
  pose proof (resolve_wf _ _ _ Hw E) as Hp. now inversion Hp.
Qed.

Lemma endswith_join (subdir f ext : string) :
  valid_name f = true -> Py.endswith f ext = true ->
  Py.endswith (Py.join subdir f) ext = true.
Proof.
  intros Hv He. destruct (endswith_split _ _ He) as [pre ->].
  destruct (join_extends subdir _ (valid_name_not_abs _ Hv)) as [y ->].
  rewrite <- !append_assoc. apply endswith_app.
Qed.

Lemma source_file_facts (fs : filesystem) (root_dir filepath : string) :
  wf_fs fs = true ->
  In filepath (source_files fs root_dir) ->
  Py.startswith filepath root_dir = true /\
  Py.endswith filepath ".tsx" || Py.endswith filepath ".ts" = true /\
  exists t, stat fs filepath = Some (File t).
Proof.
  intros Hwf Hin. unfold source_files in Hin.
  apply in_flat_map in Hin as [[[subdir dirs] files] [He Hin]].
  apply in_map_iff in Hin as [f [<- Hf]].
  apply filter_In in Hf as [Hf Hs].
  assert (Hu : (exists x, subdir = (root_dir ++ x)%string) /\
               forall f, In f files -> valid_name f = true).
  { unfold walk in He. destruct (stat fs root_dir) as [n|] eqn:E; [|destruct He].
    eapply walk_node_under; [eapply stat_wf|]; eassumption. }
  destruct Hu as [[x ->] Hv]. specialize (Hv f Hf).
  split; [|split].
  - destruct (join_extends (root_dir ++ x) f (valid_name_not_abs _ Hv)) as [y ->].
    rewrite append_assoc. apply startswith_append.
  - unfold is_source in Hs. apply orb_true_iff in Hs as [Hs|Hs].
    + now rewrite (endswith_join _ _ _ Hv Hs).
    + rewrite (endswith_join _ _ _ Hv Hs). apply orb_true_r.
  - eapply walk_files; eassumption.
Qed.

(** X6. On a well-formed tree every file a run opens is opened for
    reading, under a path that starts with [root_dir], ends in [.tsx] or
    [.ts], and leads to a file. *)
Theorem X6_opened_paths_under_root (fs : filesystem) (root_dir path : string)
    (mode : open_mode) :
  wf_fs fs = true ->
  In (COpen path mode) (w_calls (snd (run fs root_dir))) ->
  mode = ModeR /\
  Py.startswith path root_dir = true /\
  Py.endswith path ".tsx" || Py.endswith path ".ts" = true /\
  exists t, stat fs path = Some (File t).
Proof.
  intros Hwf Hin.
  assert (Ho : In (COpen path mode)
                  (filter is_open_call (w_calls (snd (run fs root_dir))))).
  { apply filter_In. now split. }
  unfold run in Ho.
  rewrite (runs_check_imports fs root_dir (initial fs) Hwf eq_refl) in Ho.
  cbn [snd extends w_calls initial app] in Ho.
  rewrite run_calls_open in Ho.
  apply in_map_iff in Ho as [p [E Hp]]. inversion E; subst.
  split; [reflexivity|]. now apply source_file_facts.
Qed.

Lemma X6_opened_paths_under_root_witness :
  wf_fs sample_fs = true /\
  In (COpen "/app/src/lib/util.ts" ModeR)
     (w_calls (snd (run sample_fs "/app/src"))) /\
  Py.startswith "/app/src/lib/util.ts" "/app/src" = true.
Proof.
  assert (Hin : In (COpen "/app/src/lib/util.ts" ModeR)
                   (w_calls (snd (run sample_fs "/app/src")))).
  { vm_compute. tauto. }
  split; [reflexivity|]. split; [exact Hin|].
  apply (X6_opened_paths_under_root sample_fs "/app/src" "/app/src/lib/util.ts"
           ModeR eq_refl Hin).
Defined.

(* ===================================================================== *)
(** ** Where the candidates lead *)
(* ===================================================================== *)

Lemma start_position_app (fs : filesystem) (top x : string) :
  top <> "" -> start_position fs (top ++ x) = start_position fs top.
Proof.
  intros Ht. destruct top as [|c top]; [now elim Ht|]. reflexivity.
Qed.

(** Resolving [join top rel], for a relative [rel], is resolving [top] and
    going on along [rel]. *)
Lemma resolve_join_rel (fs : filesystem) (top rel : string) (pos : position) :
  Py.startswith rel "/" = false ->
  resolve fs top = Some pos ->
  resolve fs (Py.join top rel) = steps pos (Py.split_sep rel).
Proof.
  intros Ha Hr.
  assert (Ht : top <> "").
  { intros ->. unfold resolve in Hr. discriminate. }
  unfold resolve in *.
  destruct (String.eqb top "") eqn:E; [discriminate|].
  destruct (join_rel top rel Ha) as [[-> [->|[pre ->]]]|[-> _]].
  - now elim Ht.
  - assert (N : String.eqb ((pre ++ "/") ++ rel) "" = false).
    { apply String.eqb_neq. destruct pre; discriminate. }
    rewrite N, (start_position_app _ _ _ Ht).
    destruct (start_position fs (pre ++ "/")) as [p0|]; [|discriminate].
    rewrite append_assoc. change ("/" ++ rel)%string with (String Py.sep rel).
    change (pre ++ "/")%string with (pre ++ String Py.sep "")%string in Hr.
    rewrite split_sep_app in *. rewrite steps_app in *.
    destruct (steps p0 (Py.split_sep pre)) as [p1|]; [|discriminate].
    simpl in Hr. destruct (step p1 "") as [p2|] eqn:F; [|discriminate].
    apply step_empty in F. subst p2. now inversion Hr.
  - assert (N : String.eqb (top ++ String Py.sep rel) "" = false).
    { apply String.eqb_neq. destruct top; discriminate. }
    rewrite N, (start_position_app _ _ _ Ht).
    destruct (start_position fs top) as [p0|]; [|discriminate].
    now rewrite split_sep_app, steps_app, Hr.
Qed.

Lemma startswith_app_rel (a b : string) :
  a <> "" -> Py.startswith a "/" = false -> Py.startswith (a ++ b) "/" = false.
Proof. intros Ha. destruct a as [|c a]; [now elim Ha|]. auto. Qed.

Lemma join_app (top rel ext : string) :
  rel <> "" -> Py.startswith rel "/" = false ->
  (Py.join top rel ++ ext)%string = Py.join top (rel ++ ext).
Proof.
  intros Hn Ha. unfold Py.join.
  rewrite Ha, (startswith_app_rel _ ext Hn Ha).
  destruct (_ || _); now rewrite !append_assoc.
Qed.

Lemma stat_join_rel (fs : filesystem) (top rel ext : string) (pos : position) :
  rel <> "" -> Py.startswith rel "/" = false ->
  resolve fs top = Some pos ->
  stat fs (Py.join top rel ++ ext) = reach pos (rel ++ ext).
Proof.
  intros Hn Ha Hr. unfold stat, reach.
  rewrite (join_app _ _ _ Hn Ha).
  now rewrite (resolve_join_rel fs top _ pos (startswith_app_rel _ ext Hn Ha) Hr).
Qed.




Lemma reach_sibling (k : string) (es : list (string * node)) (up : position)
    (name : string) (n : node) :
  valid_name name = true -> lookup name es = Some n ->
  reach ((k, Dir es) :: up) ("./" ++ name) = Some n.
Proof.
  intros Hv Hl. unfold reach.
  change ("./" ++ name)%string with ("." ++ String Py.sep name)%string.
  rewrite split_sep_app.
  rewrite (split_sep_plain name (proj2 (proj2 (proj2 (valid_name_spec _ Hv))))).
  change (Py.split_sep ".") with ["."]. cbn [app steps].
  change (step ((k, Dir es) :: up) ".") with (Some ((k, Dir es) :: up)).
  cbv iota beta.
  now rewrite (step_name _ _ _ _ Hv), Hl.
Qed.

(** X10. A file that imports [./name] while [name.ts] stands in its own
    directory is not reported: the first existence test succeeds, nothing is
    printed, the count stays, and no further test is made. *)
Theorem X10_sibling_module_resolves (root_dir filepath name k : string)
    (es : list (string * node)) (up : position) (n : node) (c : nat)
    (w : world) :
  resolve (w_fs w) (Py.dirname filepath) = Some ((k, Dir es) :: up) ->
  valid_name (name ++ ".ts") = true ->
  lookup (name ++ ".ts") es = Some n ->
  check_import root_dir filepath ("./" ++ name) c w =
  (Ok c,
   extends w []
     [CExists (Py.join (Py.dirname filepath) ("./" ++ name) ++ ".ts")]).
Proof.
  intros Hp Hv Hl.
  assert (Hr : Py.startswith ("./" ++ name) "." = true) by reflexivity.
  assert (Hf : form_of ("./" ++ name) <> Bare)
    by (rewrite (form_relative _ Hr); discriminate).
  assert (He : exists_ (w_fs w)
                 (Py.join (Py.dirname filepath) ("./" ++ name) ++ ".ts") = true).
  { unfold exists_.
    rewrite (stat_join_rel _ _ ("./" ++ name) ".ts" _ ltac:(discriminate)
               eq_refl Hp).
    change (("./" ++ name) ++ ".ts")%string with ("./" ++ (name ++ ".ts"))%string.
    now rewrite (reach_sibling _ _ _ _ _ Hv Hl). }
  rewrite (check_import_checked root_dir filepath _ c w Hf).
  unfold import_calls, base_path. rewrite (form_relative _ Hr).
  rewrite resolved_candidates.
  unfold any_exists, candidates, suffixes.
  cbn [map existsb through_first]. rewrite He. reflexivity.
Qed.

Lemma X10_sibling_module_resolves_witness :
  fst (check_import "/app/src" "/app/src/a.ts" "./b" 0 (initial sample_fs)) = Ok 0.
Proof.
  let r := eval vm_compute in (resolve sample_fs (Py.dirname "/app/src/a.ts")) in
  match r with
  | Some ((?k, Dir ?es) :: ?up) =>
      pose proof (X10_sibling_module_resolves "/app/src" "/app/src/a.ts" "b"
                    k es up (File (Some "")) 0 (initial sample_fs)
                    eq_refl eq_refl eq_refl) as H
  end.
  change ("./" ++ "b")%string with "./b" in H. now rewrite H.
Defined.

(* ===================================================================== *)
(** ** The working directory *)
(* ===================================================================== *)

Lemma app_abs (a b : string) :
  Py.startswith a "/" = true -> Py.startswith (a ++ b) "/" = true.
Proof. destruct a as [|c a]; [discriminate | auto]. Qed.

Lemma join_abs (a b : string) :
  Py.startswith a "/" = true -> Py.startswith (Py.join a b) "/" = true.
Proof.
  intros H. unfold Py.join.
  destruct (Py.startswith b "/") eqn:B; [exact B|].
  destruct (_ || _); now apply app_abs.
Qed.

Lemma dirname_abs (p : string) :
  Py.startswith p "/" = true -> Py.startswith (Py.dirname p) "/" = true.
Proof.
  destruct p as [|c p]; [discriminate|]. simpl. intros H.
  apply andb_true_iff in H as [H _]. apply Ascii.eqb_eq in H. subst c.
  unfold Py.dirname. cbn [Py.head_to_last_sep].
  change (Py.is_sep "/") with true. cbv iota.
  destruct (negb _ && negb _) eqn:E; [|reflexivity].
  apply andb_true_iff in E as [_ E]. apply negb_true_iff in E.
  cbn [Py.rstrip_sep]. change (Py.is_sep "/") with true.
  destruct (Py.rstrip_sep (Py.head_to_last_sep p)) eqn:R; [|reflexivity].
  apply rstrip_sep_empty in R. simpl in E. rewrite R in E. discriminate.
Qed.

Lemma walk_node_abs (n : node) :
  forall top subdir dirs files,
    Py.startswith top "/" = true ->
    In (subdir, dirs, files) (walk_node top n) ->
    Py.startswith subdir "/" = true.
Proof.
  induction n as [t|es IH] using node_induction;
    intros top subdir dirs files Ha Hin.
  - destruct Hin.
  - rewrite walk_node_dir in Hin. destruct Hin as [E|Hin].
    + now inversion E; subst.
    + apply in_flat_map in Hin as [[name c] [Hc Hin]]. simpl in Hin.
      rewrite Forall_forall in IH.
      eapply (IH _ Hc); [|eassumption]. now apply join_abs.
Qed.

Section SameAbsolute.

Variables fs fs' : filesystem.
Hypothesis Hsame : same_absolute fs fs'.

Lemma same_exists (p : string) :
  Py.startswith p "/" = true -> exists_ fs p = exists_ fs' p.
Proof. intros H. unfold exists_. now rewrite (Hsame p H). Qed.

Lemma same_isdir (p : string) :
  Py.startswith p "/" = true -> isdir fs p = isdir fs' p.
Proof. intros H. unfold isdir. now rewrite (Hsame p H). Qed.

Lemma same_any_exists (l : list string) :
  (forall p, In p l -> Py.startswith p "/" = true) ->
  any_exists fs l = any_exists fs' l.
Proof.
  unfold any_exists. induction l as [|p l IH]; intros H; simpl; [reflexivity|].
  rewrite (same_exists p (H p (or_introl eq_refl))), IH; [reflexivity|].
  intros q Hq. apply H. now right.
Qed.

Lemma same_resolved (base : string) :
  Py.startswith base "/" = true -> resolved fs base = resolved fs' base.
Proof.
  intros H. unfold resolved, fallback.
  rewrite (same_isdir _ H), !(same_exists _ (join_abs _ _ H)).
  f_equal. apply same_any_exists. intros p Hp.
  unfold candidates in Hp. apply in_map_iff in Hp as [ext [<- _]].
  now apply app_abs.
Qed.

Lemma base_path_abs (root_dir filepath imp : string) :
  Py.startswith root_dir "/" = true -> Py.startswith filepath "/" = true ->
  Py.startswith (base_path root_dir filepath imp) "/" = true.
Proof.
  intros Hr Hf. unfold base_path.
  destruct (form_of imp); apply join_abs; auto using dirname_abs.
Qed.

Lemma same_is_missing (root_dir filepath imp : string) :
  Py.startswith root_dir "/" = true -> Py.startswith filepath "/" = true ->
  is_missing fs root_dir filepath imp = is_missing fs' root_dir filepath imp.
Proof.
  intros Hr Hf. unfold is_missing.
  now rewrite (same_resolved _ (base_path_abs root_dir filepath imp Hr Hf)).
Qed.

Lemma same_walk (root_dir : string) :
  Py.startswith root_dir "/" = true -> walk fs root_dir = walk fs' root_dir.
Proof. intros H. unfold walk. now rewrite (Hsame _ H). Qed.

Lemma source_files_abs (root_dir filepath : string) :
  Py.startswith root_dir "/" = true ->
  In filepath (source_files fs root_dir) ->
  Py.startswith filepath "/" = true.
Proof.
  intros Hr Hin. unfold source_files in Hin.
  apply in_flat_map in Hin as [[[subdir dirs] files] [He Hin]].
  apply in_map_iff in Hin as [f [<- _]]. apply join_abs.
  unfold walk in He. destruct (stat fs root_dir) as [n|]; [|destruct He].
  eapply walk_node_abs; eassumption.
Qed.

Lemma same_missing_refs (root_dir : string) :
  Py.startswith root_dir "/" = true ->
  missing_refs fs root_dir = missing_refs fs' root_dir.
Proof.
  intros Hr. unfold missing_refs.
  assert (Es : source_files fs' root_dir = source_files fs root_dir).
  { unfold source_files. now rewrite (same_walk _ Hr). }
  rewrite Es. apply flat_map_ext_in. intros fp Hin.
  pose proof (source_files_abs _ _ Hr Hin) as Hf.
  unfold file_imports. rewrite (Hsame _ Hf). f_equal.
  apply filter_ext. intros imp. now apply same_is_missing.
Qed.

End SameAbsolute.

Lemma same_absolute_cwd (r : node) (cwd cwd' : list string) :
  same_absolute (mkFs r cwd) (mkFs r cwd').
Proof.
  intros p Hp. unfold stat, resolve, start_position. rewrite Hp. reflexivity.
Qed.

(** X7. With an absolute [root_dir], as in the call the script makes, the
    result does not depend on the working directory: on a well-formed tree
    the run ends normally and prints the same lines from any working
    directory. *)
Theorem X7_independent_of_working_directory (tree : node)
    (cwd cwd' : list string) (root_dir : string) :
  wf_fs (mkFs tree cwd) = true ->
  Py.startswith root_dir "/" = true ->
  fst (run (mkFs tree cwd) root_dir) = Ok tt /\
  fst (run (mkFs tree cwd') root_dir) = Ok tt /\
  w_stdout (snd (run (mkFs tree cwd) root_dir)) =
  w_stdout (snd (run (mkFs tree cwd') root_dir)).
Proof.
  intros Hwf Ha. unfold run.
  assert (Hwf' : wf_fs (mkFs tree cwd') = true) by exact Hwf.
  rewrite (runs_check_imports _ root_dir (initial (mkFs tree cwd)) Hwf eq_refl).
  rewrite (runs_check_imports _ root_dir (initial (mkFs tree cwd')) Hwf' eq_refl).
  cbn [fst snd extends w_stdout initial app].
  split; [reflexivity|]. split; [reflexivity|].
  unfold expected_output.
  now rewrite (same_missing_refs _ _ (same_absolute_cwd tree cwd cwd') _ Ha).
Qed.

Lemma X7_independent_of_working_directory_witness :
  wf_fs sample_fs = true /\
  Py.startswith "/app/src" "/" = true /\
  w_stdout (snd (run sample_fs "/app/src")) =
  w_stdout (snd (run (mkFs (fs_root sample_fs) ["app"; "shared"]) "/app/src")).
Proof.
  split; [reflexivity|]. split; [reflexivity|].
  apply (X7_independent_of_working_directory (fs_root sample_fs) []
           ["app"; "shared"] "/app/src" eq_refl eq_refl).
Defined.

(* ===================================================================== *)
(** ** Alias and relative specifiers side by side; the report *)
(* ===================================================================== *)

Lemma reach_dot (pos : position) (rel : string) :
  reach pos ("./" ++ rel) = reach pos rel.
Proof.
  unfold reach.
  change ("./" ++ rel)%string with ("." ++ String Py.sep rel)%string.
  rewrite split_sep_app. change (Py.split_sep ".") with ["."].
  cbn [app steps].
  destruct pos as [|[k [t|es]] up].
  - cbn [step]. destruct (Py.split_sep rel) as [|c cs] eqn:E;
      [now elim (split_sep_nonempty rel)|]. reflexivity.
  - cbn [step]. destruct (Py.split_sep rel) as [|c cs] eqn:E;
      [now elim (split_sep_nonempty rel)|]. reflexivity.
  - reflexivity.
Qed.

Lemma any_exists_ext (fs : filesystem) (f g : string -> string)
    (l : list string) :
  (forall ext, exists_ fs (f ext) = exists_ fs (g ext)) ->
  any_exists fs (map f l) = any_exists fs (map g l).
Proof.
  intros H. unfold any_exists.
  induction l as [|x l IH]; simpl; [reflexivity|]. now rewrite H, IH.
Qed.

(** X13. From a file that lies in the root directory, [./rest] and
    [@/rest] are classified alike: when [dirname(filepath)] and [root_dir]
    resolve to the same position, and [rest] is neither empty nor absolute,
    the two specifiers give the same count. *)
Theorem X13_alias_is_relative_from_root (root_dir filepath rest : string)
    (pos : position) (c : nat) (w : world) :
  resolve (w_fs w) root_dir = Some pos ->
  resolve (w_fs w) (Py.dirname filepath) = Some pos ->
  rest <> "" -> Py.startswith rest "/" = false ->
  fst (check_import root_dir filepath ("./" ++ rest) c w) =
  fst (check_import root_dir filepath ("@/" ++ rest) c w).
Proof.
  intros Hroot Hdir Hn Ha.
  assert (Hr : Py.startswith ("./" ++ rest) "." = true) by reflexivity.
  assert (Hal : Py.startswith ("@/" ++ rest) "@/" = true) by reflexivity.
  assert (F1 : form_of ("./" ++ rest) <> Bare)
    by (rewrite (form_relative _ Hr); discriminate).
  assert (F2 : form_of ("@/" ++ rest) <> Bare)
    by (rewrite (form_alias _ Hal); discriminate).
  rewrite (check_import_checked root_dir filepath _ c w F1).
  rewrite (check_import_checked root_dir filepath _ c w F2).
  cbn [fst]. rewrite !resolved_candidates.
  unfold base_path. rewrite (form_relative _ Hr), (form_alias _ Hal).
  change (Py.drop 2 ("@/" ++ rest)) with rest.
  unfold candidates.
  rewrite (any_exists_ext (w_fs w)
             (fun ext => (Py.join (Py.dirname filepath) ("./" ++ rest) ++ ext)%string)
             (fun ext => (Py.join root_dir rest ++ ext)%string)); [reflexivity|].
  intros ext. unfold exists_.
  rewrite (stat_join_rel _ _ ("./" ++ rest) ext pos ltac:(discriminate) eq_refl Hdir).
  rewrite (stat_join_rel _ _ rest ext pos Hn Ha Hroot).
  change (("./" ++ rest) ++ ext)%string with ("./" ++ (rest ++ ext))%string.
  now rewrite reach_dot.
Qed.

Lemma X13_alias_is_relative_from_root_witness :
  fst (check_import "/app/src" "/app/src/a.ts" "./lib/util" 0 (initial sample_fs)) =
  fst (check_import "/app/src" "/app/src/a.ts" "@/lib/util" 0 (initial sample_fs)).
Proof.
  let r := eval vm_compute in (resolve sample_fs "/app/src") in
  match r with
  | Some ?pos =>
      exact (X13_alias_is_relative_from_root "/app/src" "/app/src/a.ts"
               "lib/util" pos 0 (initial sample_fs) eq_refl eq_refl
               ltac:(discriminate) eq_refl)
  end.
Defined.

Lemma in_missing_lines (line : string) (refs : list (string * string)) :
  In line (missing_lines refs) <->
  exists filepath imp, line = missing_line filepath imp /\ In (filepath, imp) refs.
Proof.
  unfold missing_lines. rewrite in_map_iff. split.
  - intros [[f i] [<- H]]. now exists f, i.
  - intros (f & i & -> & H). now exists (f, i).
Qed.

Lemma in_missing_refs (fs : filesystem) (root_dir filepath imp : string) :
  In (filepath, imp) (missing_refs fs root_dir) <->
  In filepath (source_files fs root_dir) /\
  In imp (file_imports fs filepath) /\
  form_of imp <> Bare /\
  any_exists fs (candidates (base_path root_dir filepath imp)) = false.
Proof.
  unfold missing_refs. rewrite in_flat_map. split.
  - intros [fp [Hs Hin]]. apply in_map_iff in Hin as [i [E Hi]].
    inversion E; subst. apply filter_In in Hi as [Hi Hm].
    unfold is_missing in Hm. rewrite resolved_candidates in Hm.
    repeat split; try assumption.
    + intros F. rewrite F in Hm. discriminate.
    + destruct (form_of imp); [| |discriminate]; now apply negb_true_iff in Hm.
  - intros (Hs & Hi & Hf & He). exists filepath. split; [exact Hs|].
    apply in_map. apply filter_In. split; [exact Hi|].
    unfold is_missing. rewrite resolved_candidates, He.
    destruct (form_of imp); [reflexivity | reflexivity | now elim Hf].
Qed.

(** X14. What a run reports, on a well-formed tree: a line is printed for a
    file and a specifier exactly when the file is a source file of the walk,
    its text decodes and yields the specifier, the specifier is of the alias
    or the relative form, and none of its seven candidates exists.  Every
    line printed is such a line or the final [No missing imports found.] *)
Theorem X14_report_sound_and_complete (fs : filesystem) (root_dir : string) :
  wf_fs fs = true ->
  (forall line,
     In line (w_stdout (snd (run fs root_dir))) ->
     line = success_line \/
     exists filepath imp content,
       line = missing_line filepath imp /\
       In filepath (source_files fs root_dir) /\
       stat fs filepath = Some (File (Some content)) /\
       In imp (extract_imports content) /\
       form_of imp <> Bare /\
       any_exists fs (candidates (base_path root_dir filepath imp)) = false) /\
  (forall filepath imp content,
     In filepath (source_files fs root_dir) ->
     stat fs filepath = Some (File (Some content)) ->
     In imp (extract_imports content) ->
     form_of imp <> Bare ->
     any_exists fs (candidates (base_path root_dir filepath imp)) = false ->
     In (missing_line filepath imp) (w_stdout (snd (run fs root_dir)))).
Proof.
  intros Hwf. unfold run.
  rewrite (runs_check_imports fs root_dir (initial fs) Hwf eq_refl).
  cbn [snd extends w_stdout initial app]. unfold expected_output. split.
  - intros line Hin. apply in_app_iff in Hin as [Hin|Hin].
    + right. apply in_missing_lines in Hin as (fp & imp & -> & Hr).
      apply in_missing_refs in Hr as (Hs & Hi & Hf & He).
      unfold file_imports in Hi.
      destruct (stat fs fp) as [[[content|]|es]|] eqn:E; try destruct Hi.
      now exists fp, imp, content.
    + left. destruct (Nat.eqb _ 0); [|destruct Hin].
      destruct Hin as [<-|[]]. reflexivity.
  - intros fp imp content Hs Hst Hi Hf He.
    apply in_app_iff. left. apply in_missing_lines. exists fp, imp.
    split; [reflexivity|]. apply in_missing_refs.
    unfold file_imports. rewrite Hst. now repeat split.
Qed.

Lemma X14_report_sound_and_complete_witness :
  wf_fs sample_fs = true /\
  In "Missing import in /app/src/lib/util.ts: @/nope"
     (w_stdout (snd (run sample_fs "/app/src"))).
Proof.
  split; [reflexivity|].
  destruct (X14_report_sound_and_complete sample_fs "/app/src" eq_refl) as [_ H].
  apply (H "/app/src/lib/util.ts" "@/nope" "import z from '@/nope'").
  - vm_compute. tauto.
  - reflexivity.
  - vm_compute. tauto.
  - discriminate.
  - reflexivity.
Defined.

Lemma X1_extracted_specifier_occurs_witness :
  exists pre ws q1 q2 post,
    "import z from '@/nope'" =
      (pre ++ "from" ++ ws ++ String q1 ("@/nope" ++ String q2 post))%string /\
    ws <> "" /\ all_space ws = true /\
    is_quote q1 = true /\ is_quote q2 = true /\
    "@/nope" <> "" /\ has_newline "@/nope" = false.
Proof.
  apply (X1_extracted_specifier_occurs "import z from '@/nope'" "@/nope").
  vm_compute. tauto.
Defined.



(* ===================================================================== *)
(** ** Removing an item from an import line *)
(* ===================================================================== *)

Lemma sub_from_prev (a : Re.atom) (k : list Sub.item) (repl : string) :
  forall s skip prev prev',
    Sub.sub_from (Sub.One a :: k) repl skip prev s =
    Sub.sub_from (Sub.One a :: k) repl skip prev' s.
Proof.
  induction s as [|c s IH]; intros skip prev prev'; [reflexivity|].
  destruct skip as [|n]; cbn [Sub.sub_from]; [|reflexivity].
  reflexivity.
Qed.

Lemma sub_from_skip (a : Re.atom) (k : list Sub.item) (repl : string)
    (m rest : string) :
  forall prev,
    Sub.sub_from (Sub.One a :: k) repl (String.length m) prev (m ++ rest) =
    Sub.sub_from (Sub.One a :: k) repl 0 None rest.
Proof.
  induction m as [|c m IH]; intros prev.
  - apply sub_from_prev.
  - cbn [String.length append Sub.sub_from]. apply IH.
Qed.

Lemma star_suffix (a : Re.atom) (cont : option ascii -> string -> option string) :
  (forall prev s rest, cont prev s = Some rest -> exists m, s = (m ++ rest)%string) ->
  forall s prev rest,
    Sub.star a cont prev s = Some rest -> exists m, s = (m ++ rest)%string.
Proof.
  intros Hc. induction s as [|c s IH]; intros prev rest; simpl.
  - apply Hc.
  - destruct (Re.atom_matches a c); [|apply Hc].
    destruct (Sub.star a cont (Some c) s) as [r|] eqn:E.
    + intros H; inversion H; subst.
      destruct (IH _ _ E) as [m ->]. now exists (String c m).
    + apply Hc.
Qed.

Lemma smatch_suffix (its : list Sub.item) :
  forall prev s rest,
    Sub.smatch its prev s = Some rest -> exists m, s = (m ++ rest)%string.
Proof.
  induction its as [|[a|a|] k IH]; intros prev s rest; simpl.
  - intros H; inversion H. now exists "".
  - destruct s as [|c s]; [discriminate|].
    destruct (Re.atom_matches a c); [|discriminate].
    intros H. destruct (IH _ _ _ H) as [m ->]. now exists (String c m).
  - apply star_suffix. exact IH.
  - destruct (xorb _ _); [apply IH | discriminate].
Qed.

Lemma smatch_one_suffix (a : Re.atom) (k : list Sub.item)
    (prev : option ascii) (c : ascii) (s rest : string) :
  Sub.smatch (Sub.One a :: k) prev (String c s) = Some rest ->
  exists m, s = (m ++ rest)%string.
Proof.
  simpl. destruct (Re.atom_matches a c); [|discriminate]. apply smatch_suffix.
Qed.

Lemma remove_match (what s rest : string) :
  Sub.smatch (item_re what) None s = Some rest ->
  remove_from_import_line s what = remove_from_import_line rest what.
Proof.
  intros H. unfold remove_from_import_line, Sub.sub.
  destruct s as [|c s]; [discriminate|].
  cbn [Sub.sub_from]. rewrite H. cbn [append].
  assert (Hs : exists m, s = (m ++ rest)%string).
  { unfold item_re in H. now apply smatch_one_suffix in H. }
  destruct Hs as [m ->].
  replace (String.length (String c (m ++ rest)) - String.length rest - 1)
    with (String.length m)
    by (cbn [String.length]; rewrite length_append; lia).
  apply sub_from_skip.
Qed.

Lemma remove_keep (what : string) (c : ascii) (s : string) :
  Sub.smatch (item_re what) None (String c s) = None ->
  remove_from_import_line (String c s) what =
  String c (remove_from_import_line s what).
Proof.
  intros H. unfold remove_from_import_line, Sub.sub.
  cbn [Sub.sub_from]. rewrite H. f_equal. apply sub_from_prev.
Qed.

Lemma no_match_without_comma (what : string) (c : ascii) (s : string) :
  Ascii.eqb c "," = false ->
  Sub.smatch (item_re what) None (String c s) = None.
Proof.
  intros H. unfold item_re. cbn [Sub.smatch Re.atom_matches].
  now rewrite Ascii.eqb_sym, H.
Qed.

(** What stands before the first comma is kept as it is. *)
Lemma remove_prefix (what pre s : string) :
  has_comma pre = false ->
  remove_from_import_line (pre ++ s) what =
  (pre ++ remove_from_import_line s what)%string.
Proof.
  induction pre as [|c pre IH]; simpl; intros H; [reflexivity|].
  apply orb_false_iff in H as [Hc Hp].
  rewrite (remove_keep what c _ (no_match_without_comma what c _ Hc)).
  now rewrite (IH Hp).
Qed.

(** X15. A line without comma comes back unchanged, whatever the item. *)
Theorem X15_line_without_comma_unchanged (line what : string) :
  Sub.all_word what = true ->
  has_comma line = false ->
  remove_from_import_line line what = line.
Proof.
  intros _ H.
  rewrite <- (append_empty_r line) at 1.
  rewrite (remove_prefix what line "" H).
  now rewrite append_empty_r.
Qed.

Lemma X15_line_without_comma_unchanged_witness :
  remove_from_import_line "import { Link } from 'react-router-dom';" "Link" =
  "import { Link } from 'react-router-dom';".
Proof.
  apply (X15_line_without_comma_unchanged
           "import { Link } from 'react-router-dom';" "Link"); reflexivity.
Defined.

Lemma sub_from_length (its : list Sub.item) :
  forall s skip prev,
    String.length (Sub.sub_from its "" skip prev s) <= String.length s.
Proof.
  induction s as [|c s IH]; intros skip prev; [apply le_n|].
  cbn [Sub.sub_from String.length].
  destruct skip as [|n].
  - destruct (Sub.smatch its prev (String c s)) as [rest|].
    + cbn [append]. etransitivity; [apply IH | lia].
    + cbn [String.length]. specialize (IH 0 (Some c)). lia.
  - etransitivity; [apply IH | lia].
Qed.

(** X16. The result is never longer than the line: text is only removed. *)
Theorem X16_result_not_longer (line what : string) :
  Sub.all_word what = true ->
  String.length (remove_from_import_line line what) <= String.length line.
Proof. intros _. apply sub_from_length. Qed.

Lemma X16_result_not_longer_witness :
  String.length (remove_from_import_line "import { a, Link, b } from 'x';" "Link")
  <= String.length "import { a, Link, b } from 'x';".
Proof.
  apply (X16_result_not_longer "import { a, Link, b } from 'x';" "Link").
  reflexivity.
Defined.

Lemma word_not_space (c : ascii) :
  Sub.is_word c = true -> Re.is_space c = false.
Proof.
  destruct c as [[] [] [] [] [] [] [] []]; vm_compute; congruence.
Qed.

Lemma word_not_comma (c : ascii) :
  Sub.is_word c = true -> Ascii.eqb c "," = false.
Proof.
  destruct c as [[] [] [] [] [] [] [] []]; vm_compute; congruence.
Qed.

Lemma space_not_comma (c : ascii) :
  Re.is_space c = true -> Ascii.eqb c "," = false.
Proof.
  destruct c as [[] [] [] [] [] [] [] []]; vm_compute; congruence.
Qed.

Lemma all_space_no_comma (s : string) :
  all_space s = true -> has_comma s = false.
Proof.
  induction s as [|c s IH]; simpl; [reflexivity|]. intros H.
  apply andb_true_iff in H as [Hc Hs].
  now rewrite (space_not_comma _ Hc), (IH Hs).
Qed.

Lemma all_word_no_comma (s : string) :
  Sub.all_word s = true -> has_comma s = false.
Proof.
  induction s as [|c s IH]; simpl; [reflexivity|]. intros H.
  apply andb_true_iff in H as [Hc Hs].
  now rewrite (word_not_comma _ Hc), (IH Hs).
Qed.

Lemma has_comma_app (a b : string) :
  has_comma (a ++ b) = has_comma a || has_comma b.
Proof.
  induction a as [|c a IH]; simpl; [reflexivity|]. now rewrite IH, orb_assoc.
Qed.

Lemma smatch_literal (lit : string) (k : list Sub.item) :
  forall prev rest,
    Sub.smatch (Sub.literal lit ++ k) prev (lit ++ rest) =
    Sub.smatch k (before_after prev lit) rest.
Proof.
  induction lit as [|c lit IH]; intros prev rest; [reflexivity|].
  cbn [Sub.literal app append Sub.smatch Re.atom_matches before_after].
  rewrite Ascii.eqb_refl. apply IH.
Qed.

Lemma word_before_after (prev : option ascii) (s : string) :
  s <> "" -> Sub.all_word s = true ->
  Sub.word_before (before_after prev s) = true.
Proof.
  revert prev; induction s as [|c s IH]; intros prev Hn Hw; [now elim Hn|].
  simpl in Hw. apply andb_true_iff in Hw as [Hc Hs].
  destruct s as [|d s]; [exact Hc|].
  apply (IH (Some c)); [discriminate | exact Hs].
Qed.

(** A literal that starts with a word character matches nowhere in white
    space. *)
Lemma smatch_literal_at_space (lit : string) (k : list Sub.item)
    (prev : option ascii) (c : ascii) (s : string) :
  lit <> "" -> Sub.all_word lit = true -> Re.is_space c = true ->
  Sub.smatch (Sub.literal lit ++ k) prev (String c s) = None.
Proof.
  intros Hn Hw Hc. destruct lit as [|x lit]; [now elim Hn|].
  simpl in Hw. apply andb_true_iff in Hw as [Hx _].
  cbn [Sub.literal app Sub.smatch Re.atom_matches].
  destruct (Ascii.eqb x c) eqn:E; [|reflexivity].
  apply Ascii.eqb_eq in E. subst c.
  rewrite (word_not_space _ Hx) in Hc. discriminate.
Qed.

(** After the comma: the white space is passed whole, then the item must
    follow and end at a word boundary. *)
Lemma star_space_item (what : string) (sp rest : string) :
  what <> "" -> Sub.all_word what = true -> all_space sp = true ->
  forall prev,
    Sub.star Re.Space (Sub.smatch (Sub.literal what ++ [Sub.Boundary])) prev
             (sp ++ what ++ rest) =
    if Sub.word_ahead rest then None else Some rest.
Proof.
  intros Hn Hw. induction sp as [|c sp IH]; intros Hsp prev.
  - cbn [append].
    assert (E : Sub.smatch (Sub.literal what ++ [Sub.Boundary]) prev (what ++ rest) =
                if Sub.word_ahead rest then None else Some rest).
    { rewrite smatch_literal. cbn [Sub.smatch].
      rewrite (word_before_after prev what Hn Hw).
      now destruct (Sub.word_ahead rest). }
    destruct what as [|x what]; [now elim Hn|].
    simpl in Hw. apply andb_true_iff in Hw as [Hx Hw].
    cbn [append Sub.star Re.atom_matches].
    rewrite (word_not_space _ Hx). exact E.
  - simpl in Hsp. apply andb_true_iff in Hsp as [Hc Hsp].
    cbn [append Sub.star Re.atom_matches]. rewrite Hc, (IH Hsp).
    destruct (Sub.word_ahead rest); [|reflexivity].
    now apply smatch_literal_at_space.
Qed.

Lemma smatch_item (what sp rest : string) :
  what <> "" -> Sub.all_word what = true -> all_space sp = true ->
  Sub.smatch (item_re what) None ("," ++ sp ++ what ++ rest) =
  if Sub.word_ahead rest then None else Some rest.
Proof.
  intros Hn Hw Hsp. unfold item_re.
  cbn [append Sub.smatch Re.atom_matches]. rewrite Ascii.eqb_refl.
  now apply star_space_item.
Qed.

(** X17. An item that follows a comma and white space, and ends at a word
    boundary, is removed together with the comma and the white space: with
    no comma before it, the line [pre , sp what post] becomes [pre] followed
    by what removal makes of [post]. *)
Theorem X17_listed_item_removed (pre sp what post : string) :
  what <> "" -> Sub.all_word what = true ->
  has_comma pre = false -> all_space sp = true ->
  Sub.word_ahead post = false ->
  remove_from_import_line (pre ++ "," ++ sp ++ what ++ post) what =
  (pre ++ remove_from_import_line post what)%string.
Proof.
  intros Hn Hw Hpre Hsp Hpost.
  rewrite (remove_prefix what pre _ Hpre). f_equal.
  apply remove_match. rewrite (smatch_item what sp post Hn Hw Hsp).
  now rewrite Hpost.
Qed.

Lemma X17_listed_item_removed_witness :
  remove_from_import_line
    "import { useSearchParams, Link } from 'react-router-dom';" "Link" =
  "import { useSearchParams } from 'react-router-dom';".
Proof.
  apply (X17_listed_item_removed "import { useSearchParams" " " "Link"
           " } from 'react-router-dom';");
    first [discriminate | reflexivity].
Defined.

(** X18. An item that is the beginning of a longer name is left alone: when
    a word character follows it, the comma, the white space and the item
    stay, and removal goes on after them. *)
Theorem X18_longer_name_kept (pre sp what post : string) (c : ascii) :
  what <> "" -> Sub.all_word what = true ->
  has_comma pre = false -> all_space sp = true ->
  Sub.is_word c = true ->
  remove_from_import_line (pre ++ "," ++ sp ++ what ++ String c post) what =
  (pre ++ "," ++ sp ++ what ++ remove_from_import_line (String c post) what)%string.
Proof.
  intros Hn Hw Hpre Hsp Hc.
  rewrite (remove_prefix what pre _ Hpre). f_equal.
  cbn [append].
  rewrite remove_keep.
  - f_equal. rewrite <- append_assoc.
    rewrite (remove_prefix what (sp ++ what)).
    + now rewrite append_assoc.
    + rewrite has_comma_app, (all_space_no_comma _ Hsp), (all_word_no_comma _ Hw).
      reflexivity.
  - change (String "," (sp ++ what ++ String c post))
      with ("," ++ sp ++ what ++ String c post)%string.
    rewrite (smatch_item what sp _ Hn Hw Hsp). cbn [Sub.word_ahead].
    now rewrite Hc.
Qed.

Lemma X18_longer_name_kept_witness :
  remove_from_import_line "import { a, LinkProps } from 'x';" "Link" =
  "import { a, LinkProps } from 'x';".
Proof.
  apply (X18_longer_name_kept "import { a" " " "Link" "rops } from 'x';" "P");
    first [discriminate | reflexivity].
Defined.
